(** * GhostKitty StemSplitter: a shallow embedding of [ghostkitty.py]

    The program is a thin driver around third-party libraries: it checks a
    file extension, decodes the file, hands the samples to a pretrained
    separation model and writes four stems.  The embedding keeps the
    control flow of the class [GhostKittyStemSplitter] (the format gate,
    [load_audio], [save_stems], [split_audio], [batch_split]) and treats
    every third-party call as an oracle of an explicit environment, so a
    theorem holds for whatever the libraries do.

    Python strings are modelled as byte strings ([string]); [str.lower] and
    [str.upper] act on the ASCII letters.  That is enough for the format
    gate: no supported extension contains a letter that is the lower-case
    image of a non-ASCII character. *)

From Stdlib Require Import String Ascii List ZArith Bool Arith Lia Permutation.
Import ListNotations.
Local Open Scope string_scope.
Local Open Scope list_scope.
Local Open Scope nat_scope.

(** ** Python [str] operations used by the program *)

Module PyStr.

Definition is_upper (c : ascii) : bool :=
  let n := nat_of_ascii c in ((65 <=? n) && (n <=? 90))%nat.

Definition is_lower (c : ascii) : bool :=
  let n := nat_of_ascii c in ((97 <=? n) && (n <=? 122))%nat.

Definition char_lower (c : ascii) : ascii :=
  if is_upper c then ascii_of_nat (nat_of_ascii c + 32) else c.

Definition char_upper (c : ascii) : ascii :=
  if is_lower c then ascii_of_nat (nat_of_ascii c - 32) else c.

(** [s.lower()] *)
Fixpoint lower (s : string) : string :=
  match s with
  | EmptyString => EmptyString
  | String c s' => String (char_lower c) (lower s')
  end.

(** [s.upper()] *)
Fixpoint upper (s : string) : string :=
  match s with
  | EmptyString => EmptyString
  | String c s' => String (char_upper c) (upper s')
  end.

(** [len(s)] *)
Definition len (s : string) : Z := Z.of_nat (String.length s).

(** [s.rfind(c)]: the highest index of [c] in [s], or -1. *)
Fixpoint rfind (s : string) (c : ascii) : Z :=
  match s with
  | EmptyString => (-1)%Z
  | String a s' =>
      let r := rfind s' c in
      if (0 <=? r)%Z then (r + 1)%Z
      else if Ascii.eqb a c then 0%Z else (-1)%Z
  end.

Fixpoint drop (n : nat) (s : string) : string :=
  match n, s with
  | O, _ => s
  | S _, EmptyString => EmptyString
  | S n', String _ s' => drop n' s'
  end.

Fixpoint take (n : nat) (s : string) : string :=
  match n, s with
  | O, _ => EmptyString
  | S _, EmptyString => EmptyString
  | S n', String c s' => String c (take n' s')
  end.

(** [s[i:]] and [s[:i]] for a non-negative index [i]. *)
Definition slice_from (s : string) (i : Z) : string := drop (Z.to_nat i) s.
Definition slice_to (s : string) (i : Z) : string := take (Z.to_nat i) s.

(** Membership of a string in a Python [set] of strings, the set given by
    its elements. *)
Definition str_in (s : string) (xs : list string) : bool :=
  existsb (String.eqb s) xs.

End PyStr.

(** ** [pathlib]: the pure path operations the program uses *)

Module Pathlib.
Import PyStr.

(** A path is its anchor (empty for a relative path) and its components. *)
Record Path : Type := mkPath { anchor : string; parts : list string }.

(** [p.name]: the final component, empty when there is none. *)
Definition name (p : Path) : string := last (parts p) "".

(** [p.parent]: a path without components is its own parent. *)
Definition parent (p : Path) : Path :=
  mkPath (anchor p) (removelast (parts p)).

(** [p / s] for a string [s] that is one relative component (no separator);
    joining the empty string or a single dot gives [p] back, any other
    component, [..] too, is kept. *)
Definition joinpath (p : Path) (s : string) : Path :=
  if String.eqb s "" || String.eqb s "." then p
  else mkPath (anchor p) (parts p ++ [s]).

(** [PurePath.suffix]:
    [i = name.rfind('.'); name[i:] if 0 < i < len(name) - 1 else ''] *)
Definition suffix_of_name (nm : string) : string :=
  let i := rfind nm "." in
  if ((0 <? i) && (i <? len nm - 1))%Z then slice_from nm i else "".

(** [PurePath.stem]: [name[:i]] under the same test, else the whole name. *)
Definition stem_of_name (nm : string) : string :=
  let i := rfind nm "." in
  if ((0 <? i) && (i <? len nm - 1))%Z then slice_to nm i else nm.

Definition suffix (p : Path) : string := suffix_of_name (name p).
Definition stem (p : Path) : string := stem_of_name (name p).

(** Matching of one path component against a glob pattern, for the
    fragment of [fnmatch] the program's patterns live in: [*] matches any
    run of characters, [?] one character, anything else itself.  Matching
    is case-sensitive, as [Path.glob] is on a POSIX system. *)
Fixpoint fnmatch (pat nm : string) : bool :=
  match pat with
  | EmptyString => match nm with EmptyString => true | _ => false end
  | String c pat' =>
      if Ascii.eqb c "*" then
        (fix star (n : string) : bool :=
           fnmatch pat' n
           || match n with
              | EmptyString => false
              | String _ n' => star n'
              end) nm
      else
        match nm with
        | EmptyString => false
        | String d nm' =>
            (Ascii.eqb c "?" || Ascii.eqb c d) && fnmatch pat' nm'
        end
  end.

End Pathlib.

Import PyStr Pathlib.

(** ** Exceptions, arrays and the third-party environment *)

(** Every exception the program can meet derives from [Exception]; only
    the fact that one was raised and what it wraps matter here. *)
Inductive exn : Type :=
| IndexError
| ZeroDivisionError
| TypeError
| LibraryError (what : string)
| LoadFailure (cause : exn).

Inductive result (A : Type) : Type :=
| Ok (a : A)
| Raise (e : exn).
Arguments Ok {A} a.
Arguments Raise {A} e.

(** A [numpy] array as [librosa.load(..., mono=False)] returns it: one
    dimension for a mono source, (channels, samples) otherwise. *)
Inductive ndarray (sample : Type) : Type :=
| Arr1 (a : list sample)
| Arr2 (a : list (list sample)).
Arguments Arr1 {sample} a.
Arguments Arr2 {sample} a.

(** The libraries and the operating system, as the program calls them.
    A two-dimensional tensor is the list of its rows. *)
Record Env : Type := mkEnv {
  sample : Type;
  Model : Type;
  FS : Type;
  (** [Path.exists()]: it raises the errors of [stat] other than those
      that say the path is not there *)
  os_exists : FS -> Path -> result bool;
  (** the names in a directory, in the order the system lists them; empty
      when the path is not a directory *)
  os_scandir : FS -> Path -> list string;
  (** [Path.mkdir(parents=True, exist_ok=True)] *)
  os_mkdir : FS -> Path -> FS * result unit;
  (** [torchaudio.load(path)]: (channels, samples) and the sample rate *)
  torchaudio_load : FS -> Path -> result (list (list sample) * Z);
  (** [librosa.load(path, sr=None, mono=False)] *)
  librosa_load : FS -> Path -> result (ndarray sample * Z);
  (** [sf.write(path, data, samplerate, subtype=...)], [data] being
      (frames, channels) *)
  sf_write : FS -> Path -> list (list sample) -> Z -> string -> FS * result unit;
  (** [demucs.pretrained.get_model(name)] *)
  get_model : FS -> string -> FS * result Model;
  (** [module.to(device)] and [module.eval()] *)
  module_to : Model -> string -> result Model;
  module_eval : Model -> Model;
  (** [tensor.to(device)] *)
  tensor_to : list (list sample) -> string -> result (list (list sample));
  (** [demucs.apply.apply_model(model, mix, device=..., progress=True)]:
      (batch, sources, channels, samples) *)
  apply_model : Model -> list (list (list sample)) -> string ->
                result (list (list (list (list sample))));
  (** [tensor.float()] on one element *)
  to_float32 : sample -> sample
}.

(** ** Tensor operations *)

Section Tensors.
Context {A : Type}.

(** [t.shape[0]] and [t.shape[1]] of a two-dimensional tensor. *)
Definition shape0 (t : list (list A)) : nat := length t.
Definition shape1 (t : list (list A)) : nat :=
  match t with
  | [] => 0
  | row :: _ => length row
  end.

(** [t.repeat(2, 1)]: the rows twice over. *)
Definition repeat_2_1 (t : list (list A)) : list (list A) := t ++ t.

(** [t[:2]] *)
Definition first_two (t : list (list A)) : list (list A) := firstn 2 t.

(** [np.stack([a, a])] *)
Definition stack2 (a : list A) : list (list A) := [a; a].

Fixpoint zip_cons (xs : list A) (rows : list (list A)) : list (list A) :=
  match xs, rows with
  | x :: xs', r :: rows' => (x :: r) :: zip_cons xs' rows'
  | _, _ => []
  end.

(** [t.T] of a (channels, samples) array: (samples, channels). *)
Fixpoint transpose (t : list (list A)) : list (list A) :=
  match t with
  | [] => []
  | row :: rest =>
      match rest with
      | [] => map (fun x => [x]) row
      | _ => zip_cons row (transpose rest)
      end
  end.

(** All rows have [n] entries. *)
Definition rectangular (n : nat) (t : list (list A)) : Prop :=
  Forall (fun row => length row = n) t.

End Tensors.

(** ** Console, log and system events *)

Inductive message : Type :=
| MsgModelLoaded
| MsgModelError (e : exn)
| MsgSaved (stem_name : string)
| MsgSaveError (stem_name : string) (e : exn)
| MsgUnsupported (sfx : string)
| MsgNotFound (p : Path)
| MsgProcessing (nm : string)
| MsgDuration (frames : nat) (sample_rate : Z)
| MsgSavingStems
| MsgSuccess (output_dir : Path)
| MsgReady
| MsgProcessError (nm : string) (e : exn)
| MsgDirNotFound (d : Path)
| MsgNoAudioFiles
| MsgFound (n : nat)
| MsgBatchItem (i n : nat)
| MsgBatchComplete (succeeded n : nat).

(** What a run does to the outside world, in the order it happens. *)
Inductive event : Type :=
| Print (m : message)
| LogWarning (e : exn)
| LogError (p : Path) (e : exn)
| PathExists (p : Path)
| Glob (d : Path) (pattern : string)
| Mkdir (p : Path)
| GetModel (nm : string)
| ModuleTo (dev : string)
| TensorTo (dev : string)
| TorchaudioLoad (p : Path)
| LibrosaLoad (p : Path)
| ApplyModel (dev : string)
| SfWrite (p : Path) (frames : nat) (samplerate : Z) (subtype : string) (ok : bool).

(** The fields of [self] that [__init__] sets and no method changes.
    [supported_formats] is a Python [set]: the list is its elements in the
    order the interpreter iterates them, which the language leaves open. *)
Record Self : Type := mkSelf {
  model_name : string;
  device : string;
  supported_formats : list string;
  stem_names : list (nat * string)
}.

Definition SUPPORTED_FORMATS : list string :=
  [".mp3"; ".wav"; ".flac"; ".m4a"; ".aac"; ".ogg"; ".wma"].

Definition STEM_NAMES : list (nat * string) :=
  [(0, "drums"); (1, "bass"); (2, "other"); (3, "vocals")].

(** [__init__] with an explicit device; [formats] is the iteration order of
    the set literal. *)
Definition init (model_name device : string) (formats : list string) : Self :=
  mkSelf model_name device formats STEM_NAMES.

(** An object as [__init__] leaves it. *)
Definition constructed (self : Self) : Prop :=
  Permutation SUPPORTED_FORMATS (supported_formats self)
  /\ stem_names self = STEM_NAMES.

(** [is_supported_format]: [file_path.suffix.lower() in self.supported_formats] *)
Definition is_supported_format (self : Self) (file_path : Path) : bool :=
  str_in (lower (suffix file_path)) (supported_formats self).

(** ** The program state and its monad *)

Section Program.
Context (E : Env).

Local Abbreviation tensor := (list (list (sample E))).

(** [self.model], the file system and the events so far. *)
Record State : Type := mkState {
  self_model : option (Model E);
  fs : FS E;
  trace : list event
}.

Definition log (st : State) (ev : event) : State :=
  mkState (self_model st) (fs st) (trace st ++ [ev]).

Definition with_fs (st : State) (fs' : FS E) : State :=
  mkState (self_model st) fs' (trace st).

Definition with_model (st : State) (m : Model E) : State :=
  mkState (Some m) (fs st) (trace st).

(** A computation runs on a state and ends with a value or a raised
    exception; the state changes made before a [raise] stay. *)
Definition M (A : Type) : Type := State -> result A * State.

Definition ret {A : Type} (a : A) : M A := fun st => (Ok a, st).

Definition raise {A : Type} (e : exn) : M A := fun st => (Raise e, st).

Definition bind {A B : Type} (m : M A) (k : A -> M B) : M B :=
  fun st =>
    match m st with
    | (Ok a, st') => k a st'
    | (Raise e, st') => (Raise e, st')
    end.

(** [try: body / except Exception as e: handler e] *)
Definition try_except {A : Type} (body : M A) (handler : exn -> M A) : M A :=
  fun st =>
    match body st with
    | (Ok a, st') => (Ok a, st')
    | (Raise e, st') => handler e st'
    end.

Notation "x <- m ;; k" := (bind m (fun x => k))
  (at level 61, m at next level, right associativity).
Notation "m ;; k" := (bind m (fun _ => k))
  (at level 61, right associativity).

(** [for x in xs: body x] *)
Fixpoint for_each {A : Type} (xs : list A) (body : A -> M unit) : M unit :=
  match xs with
  | [] => ret tt
  | x :: xs' => body x ;; for_each xs' body
  end.

(** [xs[i]] *)
Definition getitem {A : Type} (xs : list A) (i : nat) : M A :=
  match nth_error xs i with
  | Some x => ret x
  | None => raise IndexError
  end.

(** [a / b] on a length and an integer rate; only whether it raises is
    kept, the quotient is printed and dropped. *)
Definition true_div (a : nat) (b : Z) : M unit :=
  if (b =? 0)%Z then raise ZeroDivisionError else ret tt.

(** *** Calls into the console, the log and the libraries *)

Definition emit (ev : event) : M unit := fun st => (Ok tt, log st ev).

Definition console_print (m : message) : M unit := emit (Print m).

Definition get_self_model : M (option (Model E)) :=
  fun st => (Ok (self_model st), st).

Definition set_self_model (m : Model E) : M unit :=
  fun st => (Ok tt, with_model st m).

Definition path_exists (p : Path) : M bool :=
  fun st => (os_exists E (fs st) p, log st (PathExists p)).

(** [d.glob(pattern)], consumed whole: the entries of [d] whose name
    matches, as paths under [d]. *)
Definition glob (d : Path) (pattern : string) : M (list Path) :=
  fun st =>
    (Ok (map (joinpath d) (filter (fnmatch pattern) (os_scandir E (fs st) d))),
     log st (Glob d pattern)).

Definition mkdir (p : Path) : M unit :=
  fun st =>
    let (fs', r) := os_mkdir E (fs st) p in
    (r, with_fs (log st (Mkdir p)) fs').

Definition call_get_model (nm : string) : M (Model E) :=
  fun st =>
    let (fs', r) := get_model E (fs st) nm in
    (r, with_fs (log st (GetModel nm)) fs').

Definition call_module_to (m : Model E) (dev : string) : M (Model E) :=
  fun st => (module_to E m dev, log st (ModuleTo dev)).

Definition call_tensor_to (t : tensor) (dev : string) : M tensor :=
  fun st => (tensor_to E t dev, log st (TensorTo dev)).

Definition call_torchaudio_load (p : Path) : M (tensor * Z) :=
  fun st => (torchaudio_load E (fs st) p, log st (TorchaudioLoad p)).

Definition call_librosa_load (p : Path) : M (ndarray (sample E) * Z) :=
  fun st => (librosa_load E (fs st) p, log st (LibrosaLoad p)).

Definition call_apply_model (m : Model E) (mix : list tensor) (dev : string)
  : M (list (list tensor)) :=
  fun st => (apply_model E m mix dev, log st (ApplyModel dev)).

Definition is_ok {A : Type} (r : result A) : bool :=
  match r with
  | Ok _ => true
  | Raise _ => false
  end.

Definition call_sf_write (p : Path) (data : tensor) (samplerate : Z)
    (subtype : string) : M unit :=
  fun st =>
    let (fs', r) := sf_write E (fs st) p data samplerate subtype in
    (r, with_fs (log st (SfWrite p (length data) samplerate subtype (is_ok r))) fs').

(** [t.float()] *)
Definition float (t : tensor) : tensor := map (map (to_float32 E)) t.

(** *** The methods of [GhostKittyStemSplitter] *)

(** [load_model] *)
Definition load_model (self : Self) : M unit :=
  m <- get_self_model ;;
  match m with
  | Some _ => ret tt
  | None =>
      try_except
        (mdl <- call_get_model (model_name self) ;;
         set_self_model mdl ;;
         mdl' <- call_module_to mdl (device self) ;;
         set_self_model (module_eval E mdl') ;;
         console_print MsgModelLoaded)
        (fun e => console_print (MsgModelError e) ;; raise e)
  end.

(** [load_audio]: [torchaudio] first, [librosa] when that raised. *)
Definition load_audio (file_path : Path) : M (tensor * Z) :=
  try_except
    (loaded <- call_torchaudio_load file_path ;;
     let (waveform, sample_rate) := loaded in
     let waveform := float waveform in
     let waveform :=
       if shape0 waveform =? 1 then repeat_2_1 waveform
       else if 2 <? shape0 waveform then first_two waveform
       else waveform in
     ret (waveform, sample_rate))
    (fun e =>
       emit (LogWarning e) ;;
       try_except
         (loaded <- call_librosa_load file_path ;;
          let (audio, sr) := loaded in
          let audio :=
            match audio with
            | Arr1 a => stack2 a
            | Arr2 a => a
            end in
          ret (float audio, sr))
         (fun e2 => raise (LoadFailure e2))).

(** [save_stems] *)
Definition save_stems (self : Self) (stems : list tensor) (sample_rate : Z)
    (output_dir : Path) (filename_base : string) : M unit :=
  mkdir output_dir ;;
  for_each (stem_names self) (fun item =>
    let (i, stem_name) := item in
    stem_audio <- getitem stems i ;;
    let output_file :=
      joinpath output_dir (filename_base ++ "_" ++ stem_name ++ ".wav")%string in
    try_except
      (call_sf_write output_file (transpose stem_audio) sample_rate "PCM_24" ;;
       console_print (MsgSaved stem_name))
      (fun e => console_print (MsgSaveError stem_name e))).

(** [split_audio].  The status spinner and the progress bar only draw on
    the console and are left out. *)
Definition split_audio (self : Self) (input_path : Path)
    (output_dir : option Path) : M bool :=
  if negb (is_supported_format self input_path) then
    console_print (MsgUnsupported (suffix input_path)) ;;
    ret false
  else
    found <- path_exists input_path ;;
    if negb found then
      console_print (MsgNotFound input_path) ;;
      ret false
    else
      let output_dir :=
        match output_dir with
        | None => joinpath (parent input_path) (stem input_path ++ "_stems")%string
        | Some d => d
        end in
      let filename_base := stem input_path in
      console_print (MsgProcessing (name input_path)) ;;
      try_except
        (m <- get_self_model ;;
         match m with
         | None => load_model self
         | Some _ => ret tt
         end ;;
         loaded <- load_audio input_path ;;
         let (waveform, sample_rate) := loaded in
         true_div (shape1 waveform) sample_rate ;;
         console_print (MsgDuration (shape1 waveform) sample_rate) ;;
         waveform <- call_tensor_to waveform (device self) ;;
         m <- get_self_model ;;
         out <- match m with
                | Some mdl => call_apply_model mdl [waveform] (device self)
                | None => raise TypeError
                end ;;
         stems <- getitem out 0 ;;
         console_print MsgSavingStems ;;
         save_stems self stems sample_rate output_dir filename_base ;;
         console_print (MsgSuccess output_dir) ;;
         console_print MsgReady ;;
         ret true)
        (fun e =>
           console_print (MsgProcessError (name input_path) e) ;;
           emit (LogError input_path e) ;;
           ret false).

(** The two [glob] calls per extension of [batch_split]. *)
Fixpoint find_audio_files (input_dir : Path) (exts : list string)
    (audio_files : list Path) : M (list Path) :=
  match exts with
  | [] => ret audio_files
  | ext :: rest =>
      lo <- glob input_dir ("*" ++ ext)%string ;;
      up <- glob input_dir ("*" ++ upper ext)%string ;;
      find_audio_files input_dir rest ((audio_files ++ lo) ++ up)
  end.

(** The loop [for i, audio_file in enumerate(audio_files, 1)]. *)
Fixpoint batch_loop (self : Self) (output_dir : Path) (total : nat)
    (files : list Path) (i success_count : nat) : M nat :=
  match files with
  | [] => ret success_count
  | audio_file :: rest =>
      console_print (MsgBatchItem i total) ;;
      let file_output_dir := joinpath output_dir (stem audio_file) in
      ok <- split_audio self audio_file (Some file_output_dir) ;;
      batch_loop self output_dir total rest (S i)
        (if ok then success_count + 1 else success_count)
  end.

(** [batch_split] *)
Definition batch_split (self : Self) (input_dir : Path)
    (output_dir : option Path) : M nat :=
  found <- path_exists input_dir ;;
  if negb found then
    console_print (MsgDirNotFound input_dir) ;;
    ret 0
  else
    audio_files <- find_audio_files input_dir (supported_formats self) [] ;;
    match audio_files with
    | [] =>
        console_print MsgNoAudioFiles ;;
        ret 0
    | _ =>
        console_print (MsgFound (length audio_files)) ;;
        let output_dir :=
          match output_dir with
          | None => joinpath input_dir "stems"
          | Some d => d
          end in
        success_count <-
          batch_loop self output_dir (length audio_files) audio_files 1 0 ;;
        console_print (MsgBatchComplete success_count (length audio_files)) ;;
        ret success_count
    end.

End Program.

Arguments mkState {E} _ _ _.
Arguments self_model {E} _.
Arguments fs {E} _.
Arguments trace {E} _.
Arguments log {E} _ _.

(** ** Vocabulary of the statements *)

(** The same character, or the two cases of one ASCII letter. *)
Definition same_letter (c d : ascii) : bool :=
  Ascii.eqb c d
  || (is_upper c && (nat_of_ascii d =? nat_of_ascii c + 32))
  || (is_upper d && (nat_of_ascii c =? nat_of_ascii d + 32)).

(** The 256 characters. *)
Definition all_ascii : list ascii := map ascii_of_nat (seq 0 256).

(** Equality of two strings up to the case of their letters. *)
Fixpoint caseless_eq (s t : string) : bool :=
  match s, t with
  | EmptyString, EmptyString => true
  | String c s', String d t' => same_letter c d && caseless_eq s' t'
  | _, _ => false
  end.

(** [s] ends with [e]. *)
Definition ends_with (s e : string) : Prop :=
  exists pre : string, s = (pre ++ e)%string.

(** A pattern character that [fnmatch] does not read literally. *)
Fixpoint no_wildcard (s : string) : bool :=
  match s with
  | EmptyString => true
  | String c s' =>
      negb (Ascii.eqb c "*") && negb (Ascii.eqb c "?") && no_wildcard s'
  end.

(** The files [sf.write] was asked to write, and those it did write, in
    the order of the calls. *)
Definition write_attempt (ev : event) : list Path :=
  match ev with
  | SfWrite p _ _ _ _ => [p]
  | _ => []
  end.

Definition write_done (ev : event) : list Path :=
  match ev with
  | SfWrite p _ _ _ true => [p]
  | _ => []
  end.

Definition write_attempts (tr : list event) : list Path :=
  flat_map write_attempt tr.

Definition written_files (tr : list event) : list Path :=
  flat_map write_done tr.

(** The decode calls of a trace, by library. *)
Definition librosa_calls (tr : list event) : list Path :=
  flat_map (fun ev => match ev with LibrosaLoad p => [p] | _ => [] end) tr.

Definition torchaudio_calls (tr : list event) : list Path :=
  flat_map (fun ev => match ev with TorchaudioLoad p => [p] | _ => [] end) tr.

(** A computation that never calls [sf.write]. *)
Definition quiet {E : Env} {A : Type} (m : M E A) : Prop :=
  forall st : State E,
    write_attempts (trace (snd (m st))) = write_attempts (trace st).

(** What [load_audio] makes of the array [librosa] returned. *)
Definition from_librosa (E : Env) (audio : ndarray (sample E)) : list (list (sample E)) :=
  float E match audio with
          | Arr1 a => stack2 a
          | Arr2 a => a
          end.

(** The files a state's trace asked [sf.write] to write. *)
Definition W {E : Env} (st : State E) : list Path := write_attempts (trace st).

(** One round of the loop of [save_stems]. *)
Definition save_one (E : Env) (stems : list (list (list (sample E))))
    (sample_rate : Z) (output_dir : Path) (filename_base : string)
    (item : nat * string) : M E unit :=
  let (i, stem_name) := item in
  bind E (getitem E stems i) (fun stem_audio =>
    let output_file :=
      joinpath output_dir (filename_base ++ "_" ++ stem_name ++ ".wav")%string in
    try_except E
      (bind E (call_sf_write E output_file (transpose stem_audio) sample_rate "PCM_24")
         (fun _ => console_print E (MsgSaved stem_name)))
      (fun e => console_print E (MsgSaveError stem_name e))).

(** The file of one stem, and the four stem files of a base name under an
    output directory. *)
Definition stem_file (output_dir : Path) (filename_base : string)
    (item : nat * string) : Path :=
  joinpath output_dir (filename_base ++ "_" ++ snd item ++ ".wav")%string.

Definition stem_files (output_dir : Path) (filename_base : string) : list Path :=
  map (stem_file output_dir filename_base) STEM_NAMES.

(** The names of a directory that one of the [glob] patterns of
    [batch_split] matches, pattern by pattern in the order of [exts]. *)
Definition matched_names (exts : list string) (names : list string) : list string :=
  flat_map (fun ext =>
              filter (fnmatch ("*" ++ ext)%string) names
              ++ filter (fnmatch ("*" ++ upper ext)%string) names) exts.

(** The files a batch over a directory is to process: what the [glob]
    calls of [batch_split] return, in order, when the directory exists. *)
Definition audio_files_of (E : Env) (self : Self) (input_dir : Path)
    (st : State E) : list Path :=
  match os_exists E (fs st) input_dir with
  | Ok true =>
      map (joinpath input_dir)
        (matched_names (supported_formats self) (os_scandir E (fs st) input_dir))
  | _ => []
  end.

(** A batch as a chain of single-file jobs: each file is announced and run
    once, in order, starting where the job before it stopped.  A job that
    returns gives a boolean, and the chain goes on whatever the boolean; a
    job that raises ends the chain with its error.  [i] is the number
    announced for the first file, [bs] the booleans of the jobs that
    returned, [err] the error of the job that raised, if one did. *)
Inductive runs_in_order (E : Env) (self : Self) (output_dir : Path) (total : nat)
  : nat -> list Path -> State E -> list bool -> option exn -> State E -> Prop :=
| rio_done (i : nat) (st : State E) :
    runs_in_order E self output_dir total i [] st [] None st
| rio_step (i : nat) (f : Path) (rest : list Path) (st st1 st2 : State E)
    (b : bool) (bs : list bool) (err : option exn) :
    split_audio E self f (Some (joinpath output_dir (stem f)))
      (log st (Print (MsgBatchItem i total))) = (Ok b, st1) ->
    runs_in_order E self output_dir total (S i) rest st1 bs err st2 ->
    runs_in_order E self output_dir total i (f :: rest) st (b :: bs) err st2
| rio_raise (i : nat) (f : Path) (rest : list Path) (st st1 : State E) (e : exn) :
    split_audio E self f (Some (joinpath output_dir (stem f)))
      (log st (Print (MsgBatchItem i total))) = (Raise e, st1) ->
    runs_in_order E self output_dir total i (f :: rest) st [] (Some e) st1.

(** How many jobs of a chain returned [True]. *)
Definition count_true (bs : list bool) : nat := length (filter (fun b => b) bs).

(** ** A small concrete world

    A directory [music] with five entries, a read-only directory [ro], and
    decoders that know a handful of file names.  The file system state is
    the list of files written so far. *)

Module Demo.

Definition stereo : list (list Z) := [[1; 2; 3]; [4; 5; 6]]%Z.
Definition mono : list (list Z) := [[7; 8]]%Z.
Definition surround : list (list Z) := [[1; 2]; [3; 4]; [5; 6]]%Z.

Definition music : Path := mkPath "" ["music"].
Definition entries : list string :=
  ["a.mp3"; "b.WAV"; "c.Mp3"; "noise.ogg"; "notes.txt"].

Definition path_eqb (p q : Path) : bool :=
  String.eqb (anchor p) (anchor q)
  && Nat.eqb (length (parts p)) (length (parts q))
  && forallb (fun xy : string * string => String.eqb (fst xy) (snd xy))
       (combine (parts p) (parts q)).

Definition decode_torchaudio (p : Path) : result (list (list Z) * Z) :=
  let n := name p in
  if str_in n ["a.mp3"; "c.Mp3"; "live.wav"] then Ok (stereo, 44100%Z)
  else if String.eqb n "b.WAV" then Ok (mono, 22050%Z)
  else Raise (LibraryError "torchaudio.load").

Definition decode_librosa (p : Path) : result (ndarray Z * Z) :=
  let n := name p in
  if String.eqb n "surround.flac" then Ok (Arr2 surround, 48000%Z)
  else if String.eqb n "voice.ogg" then Ok (Arr1 [9; 10]%Z, 16000%Z)
  else Raise (LibraryError "librosa.load").

Definition write (files : list Path) (p : Path) : list Path * result unit :=
  if str_in "ro" (parts p) || String.eqb (name p) "live_vocals.wav"
  then (files, Raise (LibraryError "sf.write"))
  else (p :: files, Ok tt).

Definition env : Env :=
  mkEnv Z unit (list Path)
    (fun _ p => Ok (negb (String.eqb (name p) "missing.mp3")))
    (fun _ d => if path_eqb d music then entries else [])
    (fun files _ => (files, Ok tt))
    (fun _ p => decode_torchaudio p)
    (fun _ p => decode_librosa p)
    (fun files p _ _ _ => write files p)
    (fun files nm =>
       (files, if String.eqb nm "htdemucs" then Ok tt
               else Raise (LibraryError "get_model")))
    (fun m _ => Ok m)
    (fun m => m)
    (fun t _ => Ok t)
    (fun _ mix _ => Ok (map (fun w => [w; w; w; w]) mix))
    (fun x => x).

Definition self : Self := init "htdemucs" "cpu" SUPPORTED_FORMATS.

Definition start : State env := @mkState env None [] [].


End Demo.

(** ** More of what a trace shows

    The arguments of the [sf.write] calls and their outcomes, what the
    console said about each stem, and the directories asked for. *)

Definition write_calls (tr : list event) : list (Path * nat * Z * string) :=
  flat_map (fun ev => match ev with
                      | SfWrite p frames samplerate subtype _ =>
                          [(p, frames, samplerate, subtype)]
                      | _ => []
                      end) tr.

Definition write_results (tr : list event) : list bool :=
  flat_map (fun ev => match ev with
                      | SfWrite _ _ _ _ ok => [ok]
                      | _ => []
                      end) tr.

Definition save_reports (tr : list event) : list (string * bool) :=
  flat_map (fun ev => match ev with
                      | Print (MsgSaved stem_name) => [(stem_name, true)]
                      | Print (MsgSaveError stem_name _) => [(stem_name, false)]
                      | _ => []
                      end) tr.

Definition mkdirs (tr : list event) : list Path :=
  flat_map (fun ev => match ev with Mkdir p => [p] | _ => [] end) tr.

Definition get_model_calls (tr : list event) : list string :=
  flat_map (fun ev => match ev with GetModel nm => [nm] | _ => [] end) tr.

Definition glob_calls (tr : list event) : list (Path * string) :=
  flat_map (fun ev => match ev with Glob d pat => [(d, pat)] | _ => [] end) tr.

(** ** Variations of the concrete world

    The same world with a device no model can be moved to, and with a
    decoder that reports a sample rate of zero. *)

Module Faulty.

Definition env_no_device : Env :=
  mkEnv Z unit (list Path)
    (os_exists Demo.env) (os_scandir Demo.env) (os_mkdir Demo.env)
    (torchaudio_load Demo.env) (librosa_load Demo.env) (sf_write Demo.env)
    (get_model Demo.env)
    (fun _ _ => Raise (LibraryError "module.to"))
    (module_eval Demo.env) (tensor_to Demo.env) (apply_model Demo.env)
    (to_float32 Demo.env).

Definition env_zero_rate : Env :=
  mkEnv Z unit (list Path)
    (os_exists Demo.env) (os_scandir Demo.env) (os_mkdir Demo.env)
    (fun _ _ => Ok (Demo.stereo, 0%Z))
    (librosa_load Demo.env) (sf_write Demo.env)
    (get_model Demo.env) (module_to Demo.env)
    (module_eval Demo.env) (tensor_to Demo.env) (apply_model Demo.env)
    (to_float32 Demo.env).

(** A model of two sources only, and a tree where no directory can be
    made. *)
Definition env_two_sources : Env :=
  mkEnv Z unit (list Path)
    (os_exists Demo.env) (os_scandir Demo.env) (os_mkdir Demo.env)
    (torchaudio_load Demo.env) (librosa_load Demo.env) (sf_write Demo.env)
    (get_model Demo.env) (module_to Demo.env)
    (module_eval Demo.env) (tensor_to Demo.env)
    (fun _ mix _ => Ok (map (fun w => [w; w]) mix))
    (to_float32 Demo.env).

Definition env_no_mkdir : Env :=
  mkEnv Z unit (list Path)
    (os_exists Demo.env) (os_scandir Demo.env)
    (fun files _ => (files, Raise (LibraryError "mkdir")))
    (torchaudio_load Demo.env) (librosa_load Demo.env) (sf_write Demo.env)
    (get_model Demo.env) (module_to Demo.env)
    (module_eval Demo.env) (tensor_to Demo.env) (apply_model Demo.env)
    (to_float32 Demo.env).

(** A directory [album] that holds a file named by an extension alone and
    two files of the same stem, a directory [duo] with the two files only,
    and a directory [dots] whose files have the stems [.] and [..]; every
    file decodable. *)
Definition album : Path := mkPath "" ["album"].
Definition duo : Path := mkPath "" ["duo"].
Definition dots : Path := mkPath "" ["dots"].

Definition env_album : Env :=
  mkEnv Z unit (list Path)
    (os_exists Demo.env)
    (fun _ d => if Demo.path_eqb d album then [".mp3"; "song.mp3"; "song.wav"]
                else if Demo.path_eqb d duo then ["song.mp3"; "song.wav"]
                else if Demo.path_eqb d dots then ["..mp3"; "...mp3"]
                else [])
    (os_mkdir Demo.env)
    (fun _ _ => Ok (Demo.stereo, 44100%Z))
    (librosa_load Demo.env) (sf_write Demo.env)
    (get_model Demo.env) (module_to Demo.env)
    (module_eval Demo.env) (tensor_to Demo.env) (apply_model Demo.env)
    (to_float32 Demo.env).



(** The state of a new object, and of one whose model is loaded. *)
Definition fresh (E : Env) (files : FS E) : State E :=
  @mkState E None files [].

Definition loaded (E : Env) (m : Model E) (files : FS E) : State E :=
  @mkState E (Some m) files [].

End Faulty.

(** ** The model across calls

    What a run does to [self.model], and how often it asks [get_model]
    for one. *)

(** A computation that leaves [self.model] as it is and does not call
    [get_model]. *)
Definition steady {E : Env} {A : Type} (c : M E A) : Prop :=
  forall st : State E,
    self_model (snd (c st)) = self_model st
    /\ get_model_calls (trace (snd (c st))) = get_model_calls (trace st).

(** A computation whose final state is related to its initial state by
    [R], whether it returns or raises. *)
Definition ends_in {E : Env} {A : Type} (R : State E -> State E -> Prop)
    (c : M E A) : Prop :=
  forall st : State E, R st (snd (c st)).

(** From [st] to [st'] a loaded model was kept, with no call of
    [get_model]. *)
Definition model_kept {E : Env} (st st' : State E) : Prop :=
  self_model st <> None ->
  self_model st' = self_model st
  /\ get_model_calls (trace st') = get_model_calls (trace st).

(** From [st] to [st'] the model is as it was with no call of [get_model],
    or there was none, [get_model] was called once, for [nm], and now there
    is one. *)
Definition model_loaded_once {E : Env} (nm : string) (st st' : State E) : Prop :=
  (self_model st' = self_model st
   /\ get_model_calls (trace st') = get_model_calls (trace st))
  \/ (self_model st = None
      /\ self_model st' <> None
      /\ get_model_calls (trace st') = get_model_calls (trace st) ++ [nm]).

(** ** The command line *)







(** * Properties *)

(** ** Characters and strings *)

Section Strings.

Lemma all_ascii_complete (c : ascii) : In c all_ascii.
Proof.
  unfold all_ascii. rewrite <- (ascii_nat_embedding c).
  apply in_map, in_seq. pose proof (nat_ascii_bounded c). lia.
Qed.

(** A property of two characters that a decision procedure checks on the
    whole alphabet holds of any two characters. *)
Lemma by_alphabet (P : ascii -> ascii -> bool) :
  forallb (fun c => forallb (P c) all_ascii) all_ascii = true ->
  forall c d, P c d = true.
Proof.
  intros H c d.
  rewrite forallb_forall in H.
  specialize (H c (all_ascii_complete c)).
  rewrite forallb_forall in H.
  exact (H d (all_ascii_complete d)).
Qed.

Lemma same_letter_lower (c d : ascii) :
  same_letter c d = Ascii.eqb (char_lower c) (char_lower d).
Proof.
  apply eqb_prop.
  apply (by_alphabet
           (fun c d => Bool.eqb (same_letter c d)
                         (Ascii.eqb (char_lower c) (char_lower d)))).
  vm_compute. reflexivity.
Qed.

Lemma caseless_eq_lower (s t : string) :
  caseless_eq s t = true <-> lower s = lower t.
Proof.
  revert t. induction s as [|c s IH]; intros [|d t]; simpl;
    try (split; [discriminate | discriminate]).
  - split; reflexivity.
  - rewrite andb_true_iff, same_letter_lower, Ascii.eqb_eq, IH.
    split.
    + intros [-> ->]. reflexivity.
    + intros H. injection H as H1 H2. split; assumption.
Qed.

Lemma str_in_In (s : string) (xs : list string) :
  str_in s xs = true <-> In s xs.
Proof.
  unfold str_in. rewrite existsb_exists. split.
  - intros (x & Hx & Heq). apply String.eqb_eq in Heq. subst. exact Hx.
  - intros H. exists s. split; [exact H | apply String.eqb_refl].
Qed.

Lemma supported_formats_lowercase (ext : string) :
  In ext SUPPORTED_FORMATS -> lower ext = ext.
Proof.
  intros H. repeat (destruct H as [<- | H]; [reflexivity |]). destruct H.
Qed.

End Strings.

(** ** The format gate *)

(** C4.  On an object as the constructor leaves it, [is_supported_format]
    accepts a path exactly when its extension equals one of the seven
    supported extensions up to the case of its letters; any other path is
    rejected. *)
Theorem is_supported_format_caseless (self : Self) (file_path : Path) :
  constructed self ->
  (is_supported_format self file_path = true <->
   exists ext, In ext SUPPORTED_FORMATS
               /\ caseless_eq (suffix file_path) ext = true).
Proof.
  intros [Hperm _]. unfold is_supported_format.
  rewrite str_in_In. split.
  - intros H. exists (lower (suffix file_path)).
    assert (Hin : In (lower (suffix file_path)) SUPPORTED_FORMATS)
      by (eapply Permutation_in; [apply Permutation_sym; exact Hperm | exact H]).
    split; [exact Hin |].
    apply caseless_eq_lower. symmetry. apply supported_formats_lowercase, Hin.
  - intros (ext & Hin & Heq).
    apply caseless_eq_lower in Heq.
    rewrite (supported_formats_lowercase ext Hin) in Heq. rewrite Heq.
    eapply Permutation_in; [exact Hperm | exact Hin].
Qed.

Lemma constructed_demo : constructed Demo.self.
Proof. split; [apply Permutation_refl | reflexivity]. Qed.

Lemma is_supported_format_caseless_witness :
  is_supported_format Demo.self (mkPath "" ["music"; "c.Mp3"]) = true <->
  exists ext, In ext SUPPORTED_FORMATS
              /\ caseless_eq (suffix (mkPath "" ["music"; "c.Mp3"])) ext = true.
Proof.
  apply (is_supported_format_caseless Demo.self (mkPath "" ["music"; "c.Mp3"])).
  split; [apply Permutation_refl | reflexivity].
Defined.

(** ** Traces *)

Section Traces.
Context {E : Env}.

Lemma trace_log (st : State E) (ev : event) :
  trace (log st ev) = trace st ++ [ev].
Proof. reflexivity. Qed.

Lemma fs_log (st : State E) (ev : event) : fs (log st ev) = fs st.
Proof. reflexivity. Qed.

Lemma self_model_log (st : State E) (ev : event) :
  self_model (log st ev) = self_model st.
Proof. reflexivity. Qed.

Lemma librosa_calls_snoc (tr : list event) (ev : event) :
  librosa_calls (tr ++ [ev])
  = librosa_calls tr ++ match ev with LibrosaLoad p => [p] | _ => [] end.
Proof.
  unfold librosa_calls. rewrite flat_map_app. simpl. rewrite app_nil_r.
  reflexivity.
Qed.

Lemma torchaudio_calls_snoc (tr : list event) (ev : event) :
  torchaudio_calls (tr ++ [ev])
  = torchaudio_calls tr ++ match ev with TorchaudioLoad p => [p] | _ => [] end.
Proof.
  unfold torchaudio_calls. rewrite flat_map_app. simpl. rewrite app_nil_r.
  reflexivity.
Qed.

Lemma write_attempts_snoc (tr : list event) (ev : event) :
  write_attempts (tr ++ [ev]) = write_attempts tr ++ write_attempt ev.
Proof.
  unfold write_attempts. rewrite flat_map_app. simpl. rewrite app_nil_r.
  reflexivity.
Qed.

End Traces.

(** ** Early rejection *)



(** ** Decoding *)

Section Decoding.
Context (E : Env).

Lemma shape0_float (t : list (list (sample E))) :
  shape0 (float E t) = shape0 t.
Proof. unfold shape0, float. apply length_map. Qed.

(** The primary path leaves two channels whenever the source has one. *)
Lemma load_audio_primary_channels (p : Path) (st : State E)
    (w : list (list (sample E))) (sr : Z) :
  torchaudio_load E (fs st) p = Ok (w, sr) ->
  1 <= shape0 w ->
  exists w', fst (load_audio E p st) = Ok (w', sr) /\ shape0 w' = 2.
Proof.
  intros Hload Hch.
  unfold load_audio, try_except, bind, call_torchaudio_load. rewrite Hload.
  rewrite shape0_float.
  destruct (shape0 w =? 1) eqn:H1; [| destruct (2 <? shape0 w) eqn:H2];
    simpl; eexists; (split; [reflexivity |]).
  - apply Nat.eqb_eq in H1. unfold repeat_2_1, shape0, float in *.
    rewrite length_app, length_map. lia.
  - apply Nat.ltb_lt in H2. unfold first_two, shape0, float in *.
    rewrite length_firstn, length_map. lia.
  - apply Nat.eqb_neq in H1. apply Nat.ltb_ge in H2.
    rewrite shape0_float. lia.
Qed.

(** The fallback path keeps every channel of a multi-channel array. *)
Lemma load_audio_fallback_channels (p : Path) (st : State E) (e : exn)
    (a : list (list (sample E))) (sr : Z) :
  torchaudio_load E (fs st) p = Raise e ->
  librosa_load E (fs st) p = Ok (Arr2 a, sr) ->
  fst (load_audio E p st) = Ok (float E a, sr)
  /\ shape0 (float E a) = length a.
Proof.
  intros H1 H2.
  unfold load_audio, try_except, bind, call_torchaudio_load,
    call_librosa_load, emit. rewrite H1. simpl. rewrite H2. simpl.
  split; [reflexivity | apply shape0_float].
Qed.

End Decoding.

(** C7.  When the [torchaudio] decode raises, [load_audio] calls [librosa]
    on the file exactly once (and [torchaudio] once); it raises exactly
    when that second decode raises too, and otherwise returns the audio
    [librosa] read together with its sample rate. *)
Theorem load_audio_fallback_once (E : Env) (file_path : Path) (st : State E)
    (e : exn) :
  torchaudio_load E (fs st) file_path = Raise e ->
  let r := load_audio E file_path st in
  librosa_calls (trace (snd r)) = librosa_calls (trace st) ++ [file_path]
  /\ torchaudio_calls (trace (snd r)) = torchaudio_calls (trace st) ++ [file_path]
  /\ (forall e2, librosa_load E (fs st) file_path = Raise e2 ->
                 fst r = Raise (LoadFailure e2))
  /\ (forall audio sr, librosa_load E (fs st) file_path = Ok (audio, sr) ->
                       fst r = Ok (from_librosa E audio, sr))
  /\ (is_ok (fst r) = false <-> is_ok (librosa_load E (fs st) file_path) = false).
Proof.
  intros H r. subst r.
  unfold load_audio, try_except, bind, call_torchaudio_load,
    call_librosa_load, emit. rewrite H. simpl.
  destruct (librosa_load E (fs st) file_path) as [[audio sr] | e2] eqn:Hl;
    simpl; rewrite ?trace_log, ?librosa_calls_snoc, ?torchaudio_calls_snoc;
    simpl; rewrite ?app_nil_r.
  - repeat split; try reflexivity; try discriminate.
    intros audio' sr' Heq. injection Heq as <- <-. reflexivity.
  - repeat split; try reflexivity; try discriminate.
    intros e2' Heq. injection Heq as <-. reflexivity.
Qed.

Lemma load_audio_fallback_once_witness :
  let r := load_audio Demo.env (mkPath "" ["voice.ogg"]) Demo.start in
  librosa_calls (trace (snd r)) = librosa_calls (trace Demo.start) ++ [mkPath "" ["voice.ogg"]]
  /\ torchaudio_calls (trace (snd r))
     = torchaudio_calls (trace Demo.start) ++ [mkPath "" ["voice.ogg"]]
  /\ (forall e2, librosa_load Demo.env (fs Demo.start) (mkPath "" ["voice.ogg"]) = Raise e2 ->
                 fst r = Raise (LoadFailure e2))
  /\ (forall audio sr,
        librosa_load Demo.env (fs Demo.start) (mkPath "" ["voice.ogg"]) = Ok (audio, sr) ->
        fst r = Ok (from_librosa Demo.env audio, sr))
  /\ (is_ok (fst r) = false
      <-> is_ok (librosa_load Demo.env (fs Demo.start) (mkPath "" ["voice.ogg"])) = false).
Proof.
  apply (load_audio_fallback_once Demo.env (mkPath "" ["voice.ogg"]) Demo.start
           (LibraryError "torchaudio.load")).
  reflexivity.
Defined.

(** C2, at a failing input.  [surround.flac] is a three-channel file that
    [torchaudio] cannot decode and [librosa] can: [load_audio] returns all
    three channels, where the primary path would have kept the first two. *)
Theorem load_audio_fallback_three_channels :
  let p := mkPath "" ["surround.flac"] in
  torchaudio_load Demo.env (fs Demo.start) p = Raise (LibraryError "torchaudio.load")
  /\ librosa_load Demo.env (fs Demo.start) p = Ok (Arr2 Demo.surround, 48000%Z)
  /\ fst (load_audio Demo.env p Demo.start) = Ok (Demo.surround, 48000%Z)
  /\ shape0 Demo.surround = 3.
Proof. repeat split. Qed.

(** ** Write failures *)

(** C5, at a failing input.  The output directory [ro] is read-only, so
    each of the four [sf.write] calls raises; [save_stems] prints the four
    errors and [split_audio] still returns [True], with no file written. *)
Theorem split_audio_true_when_every_write_fails :
  let r := split_audio Demo.env Demo.self (mkPath "" ["music"; "a.mp3"])
             (Some (mkPath "" ["ro"])) Demo.start in
  fst r = Ok true
  /\ write_attempts (trace (snd r)) = stem_files (mkPath "" ["ro"]) "a"
  /\ written_files (trace (snd r)) = []
  /\ fs (snd r) = [].
Proof. repeat split. Qed.

(** C1, at a failing input.  Writing [live_vocals.wav] fails and the other
    three stems are written: the run returns [True] with three output
    files, not four. *)
Theorem split_audio_true_with_three_files :
  let r := split_audio Demo.env Demo.self (mkPath "" ["live.wav"]) None
             Demo.start in
  fst r = Ok true
  /\ written_files (trace (snd r))
     = [mkPath "" ["live_stems"; "live_drums.wav"];
        mkPath "" ["live_stems"; "live_bass.wav"];
        mkPath "" ["live_stems"; "live_other.wav"]]
  /\ length (written_files (trace (snd r))) = 3.
Proof. repeat split. Qed.

(** ** Which files a run writes *)

Section Quiet.
Context {E : Env}.

Lemma quiet_ret {A : Type} (a : A) : quiet (ret E a).
Proof. intros st. reflexivity. Qed.

Lemma quiet_raise {A : Type} (e : exn) : quiet (@raise E A e).
Proof. intros st. reflexivity. Qed.

Lemma quiet_bind {A B : Type} (m : M E A) (k : A -> M E B) :
  quiet m -> (forall a, quiet (k a)) -> quiet (bind E m k).
Proof.
  intros Hm Hk st. unfold bind. specialize (Hm st).
  destruct (m st) as [[a | e] st1]; simpl in *.
  - rewrite Hk. exact Hm.
  - exact Hm.
Qed.

Lemma quiet_try_except {A : Type} (m : M E A) (h : exn -> M E A) :
  quiet m -> (forall e, quiet (h e)) -> quiet (try_except E m h).
Proof.
  intros Hm Hh st. unfold try_except. specialize (Hm st).
  destruct (m st) as [[a | e] st1]; simpl in *.
  - exact Hm.
  - rewrite Hh. exact Hm.
Qed.

Lemma quiet_emit (ev : event) : write_attempt ev = [] -> quiet (emit E ev).
Proof.
  intros H st. unfold emit. simpl. rewrite write_attempts_snoc, H.
  apply app_nil_r.
Qed.

Lemma quiet_console_print (m : message) : quiet (console_print E m).
Proof. apply quiet_emit. reflexivity. Qed.

Lemma quiet_get_self_model : quiet (get_self_model E).
Proof. intros st. reflexivity. Qed.

Lemma quiet_set_self_model (m : Model E) : quiet (set_self_model E m).
Proof. intros st. reflexivity. Qed.

Lemma quiet_getitem {A : Type} (xs : list A) (i : nat) : quiet (getitem E xs i).
Proof. unfold getitem. destruct (nth_error xs i); [apply quiet_ret | apply quiet_raise]. Qed.

Lemma quiet_true_div (a : nat) (b : Z) : quiet (true_div E a b).
Proof. unfold true_div. destruct (b =? 0)%Z; [apply quiet_raise | apply quiet_ret]. Qed.

Lemma quiet_path_exists (p : Path) : quiet (path_exists E p).
Proof. intros st. simpl. rewrite write_attempts_snoc. apply app_nil_r. Qed.

Lemma quiet_glob (d : Path) (pat : string) : quiet (glob E d pat).
Proof. intros st. simpl. rewrite write_attempts_snoc. apply app_nil_r. Qed.

Lemma quiet_mkdir (p : Path) : quiet (mkdir E p).
Proof.
  intros st. unfold mkdir. destruct (os_mkdir E (fs st) p). simpl.
  rewrite write_attempts_snoc. apply app_nil_r.
Qed.

Lemma quiet_call_get_model (nm : string) : quiet (call_get_model E nm).
Proof.
  intros st. unfold call_get_model. destruct (get_model E (fs st) nm). simpl.
  rewrite write_attempts_snoc. apply app_nil_r.
Qed.

Lemma quiet_call_module_to (m : Model E) (dev : string) :
  quiet (call_module_to E m dev).
Proof. intros st. simpl. rewrite write_attempts_snoc. apply app_nil_r. Qed.

Lemma quiet_call_tensor_to (t : list (list (sample E))) (dev : string) :
  quiet (call_tensor_to E t dev).
Proof. intros st. simpl. rewrite write_attempts_snoc. apply app_nil_r. Qed.

Lemma quiet_call_torchaudio_load (p : Path) : quiet (call_torchaudio_load E p).
Proof. intros st. simpl. rewrite write_attempts_snoc. apply app_nil_r. Qed.

Lemma quiet_call_librosa_load (p : Path) : quiet (call_librosa_load E p).
Proof. intros st. simpl. rewrite write_attempts_snoc. apply app_nil_r. Qed.

Lemma quiet_call_apply_model (m : Model E) (mix : list (list (list (sample E))))
    (dev : string) : quiet (call_apply_model E m mix dev).
Proof. intros st. simpl. rewrite write_attempts_snoc. apply app_nil_r. Qed.

End Quiet.

Create HintDb quiet.

#[local] Hint Resolve quiet_ret quiet_raise quiet_console_print
  quiet_get_self_model quiet_set_self_model quiet_getitem quiet_true_div
  quiet_path_exists quiet_glob quiet_mkdir quiet_call_get_model
  quiet_call_module_to quiet_call_tensor_to quiet_call_torchaudio_load
  quiet_call_librosa_load quiet_call_apply_model : quiet.

Ltac quiet_tac :=
  repeat first
    [ apply quiet_bind; [| intro]
    | apply quiet_try_except; [| intro]
    | apply quiet_emit; reflexivity
    | solve [auto with quiet]
    | match goal with
      | |- quiet (match ?x with _ => _ end) => destruct x
      | |- quiet (let (_, _) := ?x in _) => destruct x
      end ].

Lemma quiet_load_model (E : Env) (self : Self) : quiet (load_model E self).
Proof. unfold load_model. quiet_tac. Qed.

Lemma quiet_load_audio (E : Env) (p : Path) : quiet (load_audio E p).
Proof. unfold load_audio. quiet_tac. Qed.


Section Saving.
Context (E : Env).

Lemma save_one_run stems sr out base item st :
  (exists e, fst (save_one E stems sr out base item st) = Raise e
             /\ W (snd (save_one E stems sr out base item st)) = W st)
  \/ (fst (save_one E stems sr out base item st) = Ok tt
      /\ W (snd (save_one E stems sr out base item st))
         = W st ++ [stem_file out base item]).
Proof.
  destruct item as [i nm]. unfold save_one, bind at 1, getitem.
  destruct (nth_error stems i) as [audio |]; simpl.
  - right. unfold try_except, bind, call_sf_write, stem_file. simpl.
    destruct (sf_write E (fs st) _ _ _ _) as [fs' [[] | e]]; simpl;
      unfold W; simpl; rewrite !write_attempts_snoc; simpl;
      rewrite app_nil_r; split; reflexivity.
  - left. exists IndexError. split; reflexivity.
Qed.

Lemma for_each_save_run stems sr out base items st :
  let r := for_each E items (save_one E stems sr out base) st in
  (exists k, W (snd r) = W st ++ firstn k (map (stem_file out base) items))
  /\ (is_ok (fst r) = true ->
      W (snd r) = W st ++ map (stem_file out base) items).
Proof.
  revert st. induction items as [| item rest IH]; intros st; simpl.
  - split; [exists 0 |]; simpl; rewrite app_nil_r; reflexivity.
  - unfold bind.
    destruct (save_one_run stems sr out base item st) as [(e & Hr & Hw) | [Hr Hw]];
      destruct (save_one E stems sr out base item st) as [r1 st1];
      simpl in Hr, Hw; subst r1; simpl.
    + split; [exists 0; simpl; rewrite app_nil_r; exact Hw | discriminate].
    + destruct (IH st1) as [(k & Hk) Hall]. split.
      * exists (S k). simpl. rewrite Hk, Hw, <- app_assoc. reflexivity.
      * intros Hok. rewrite (Hall Hok), Hw, <- app_assoc. reflexivity.
Qed.

Lemma save_stems_unfold self stems sr out base :
  save_stems E self stems sr out base
  = bind E (mkdir E out)
      (fun _ => for_each E (stem_names self) (save_one E stems sr out base)).
Proof.
  unfold save_stems, save_one. reflexivity.
Qed.

Lemma save_stems_run self stems sr out base st :
  stem_names self = STEM_NAMES ->
  let r := save_stems E self stems sr out base st in
  (exists k, W (snd r) = W st ++ firstn k (stem_files out base))
  /\ (is_ok (fst r) = true -> W (snd r) = W st ++ stem_files out base).
Proof.
  intros Hn. rewrite save_stems_unfold, Hn. unfold bind.
  pose proof (quiet_mkdir (E:=E) out st) as Hq.
  destruct (mkdir E out st) as [[[] | e] st1]; simpl in Hq.
  - pose proof (for_each_save_run stems sr out base STEM_NAMES st1) as H.
    simpl in H. unfold W in *. rewrite Hq in H. exact H.
  - simpl. split; [exists 0; simpl; rewrite app_nil_r; exact Hq | discriminate].
Qed.

End Saving.

Section Hoare.
Context {E : Env}.

Lemma hoare_bind {A B : Type} (m : M E A) (k : A -> M E B)
    (Q : result B -> State E -> Prop) (st : State E) :
  (forall e st1, m st = (Raise e, st1) -> Q (Raise e) st1) ->
  (forall a st1, m st = (Ok a, st1) -> Q (fst (k a st1)) (snd (k a st1))) ->
  Q (fst (bind E m k st)) (snd (bind E m k st)).
Proof.
  intros Hr Hk. unfold bind. destruct (m st) as [[a | e] st1].
  - apply Hk. reflexivity.
  - apply Hr. reflexivity.
Qed.

Lemma quiet_eq {A : Type} (m : M E A) (st st1 : State E) (r : result A) :
  quiet m -> m st = (r, st1) -> W st1 = W st.
Proof. intros Hq Hm. specialize (Hq st). rewrite Hm in Hq. exact Hq. Qed.

End Hoare.

(** One quiet step of a [try] block: the step raises and the run has
    failed with nothing written, or it returns and the run goes on. *)
Ltac failed H0 := left; eexists; split; [reflexivity | exact H0].

Ltac qstep H0 Hm :=
  apply hoare_bind;
  [ intros ? ? Hm; apply quiet_eq in Hm; [| solve [quiet_tac]];
    rewrite H0 in Hm; failed Hm
  | intros ? ? Hm; apply quiet_eq in Hm; [| solve [quiet_tac]];
    rewrite H0 in Hm; clear H0 ].

(** What a call of [split_audio] comes to: it returns a boolean, and either
    it is [False] with nothing written, or the audio was loaded and
    [save_stems] ran, the result telling whether [save_stems] returned. *)
Lemma split_audio_run (E : Env) (self : Self) (p : Path) (out : option Path) (st : State E) :
  let out' := match out with
              | None => joinpath (parent p) (stem p ++ "_stems")%string
              | Some d => d
              end in
  exists r st', split_audio E self p out st = (r, st') /\
    ((exists e, r = Raise e /\ st' = log st (PathExists p)
                /\ is_supported_format self p = true
                /\ os_exists E (fs st) p = Raise e)
     \/ (exists b, r = Ok b /\
           ((b = false /\ W st' = W st)
            \/ (exists st1 w sr st2 sta stems rs stb,
                  load_audio E p st1 = (Ok (w, sr), st2)
                  /\ W sta = W st
                  /\ save_stems E self stems sr out' (stem p) sta = (rs, stb)
                  /\ W st' = W stb /\ b = is_ok rs)))).
Proof.
  intros out'. unfold split_audio.
  destruct (is_supported_format self p); simpl.
  2:{ eexists _, _. split; [reflexivity |]. right. exists false.
      split; [reflexivity |]. left. split; [reflexivity |].
      unfold W. simpl. rewrite write_attempts_snoc. apply app_nil_r. }
  unfold bind at 1. unfold path_exists at 1.
  destruct (os_exists E (fs st) p) as [[|] | e]; simpl.
  3:{ eexists _, _. split; [reflexivity |]. left. exists e. repeat split. }
  2:{ eexists _, _. split; [reflexivity |]. right. exists false.
      split; [reflexivity |]. left. split; [reflexivity |].
      unfold W. simpl. rewrite !write_attempts_snoc. simpl. rewrite !app_nil_r. reflexivity. }
  fold out'.
  unfold bind at 1. unfold console_print at 1, emit at 1.
  set (st0 := log (log st (PathExists p)) (Print (MsgProcessing (name p)))).
  assert (H0 : W st0 = W st).
  { unfold W, st0. simpl. rewrite !write_attempts_snoc. simpl. rewrite !app_nil_r. reflexivity. }
  clearbody st0.
  unfold try_except.
  match goal with |- context [let (_, _) := ?body st0 in _] => set (BODY := body) end.
  pose (Q := fun (r : result bool) (s : State E) =>
     (exists e, r = Raise e /\ W s = W st)
     \/ (exists st1 w sr st2 sta stems rs stb,
           load_audio E p st1 = (Ok (w, sr), st2)
           /\ W sta = W st
           /\ save_stems E self stems sr out' (stem p) sta = (rs, stb)
           /\ W s = W stb
           /\ ((rs = Ok tt /\ r = Ok true) \/ (exists e, rs = Raise e /\ r = Raise e)))).
  assert (HQ : Q (fst (BODY st0)) (snd (BODY st0))).
  { subst BODY.
    qstep H0 H1. qstep H1 H2.
    apply hoare_bind.
    { intros e s Hm. apply quiet_eq in Hm; [| apply quiet_load_audio].
      rewrite H2 in Hm. failed Hm. }
    intros [w sr] s2 Hload.
    assert (H3 : W s2 = W st)
      by (rewrite <- H2; exact (quiet_eq _ _ _ _ (quiet_load_audio E p) Hload)).
    clear H2.
    qstep H3 H4. qstep H4 H5. qstep H5 H6. qstep H6 H7. qstep H7 H8.
    qstep H8 H9. qstep H9 H10.
    apply hoare_bind.
    { intros e s Hsave. right. exists st2, w, sr, s2. do 4 eexists.
      split; [exact Hload |]. split; [exact H10 |]. split; [exact Hsave |].
      split; [reflexivity |]. right. exists e. split; reflexivity. }
    intros [] s Hsave.
    right. exists st2, w, sr, s2. do 4 eexists.
    split; [exact Hload |]. split; [exact H10 |]. split; [exact Hsave |].
    split; [| left; split; reflexivity].
    unfold W. simpl. rewrite !write_attempts_snoc. simpl. rewrite !app_nil_r.
    reflexivity. }
  clearbody BODY. destruct (BODY st0) as [r s]. simpl in HQ.
  destruct HQ as [(e & -> & Hw) | (st1 & w & sr & st2 & sta & stems & rs & stb & Hl & Hsta & Hsave & Hw & Hr)].
  - eexists _, _. split; [reflexivity |]. right. exists false.
    split; [reflexivity |]. left. split; [reflexivity |].
    unfold W in *. simpl. rewrite !write_attempts_snoc. simpl. rewrite !app_nil_r. exact Hw.
  - destruct Hr as [[-> ->] | (e & -> & ->)].
    + eexists _, _. split; [reflexivity |]. right. exists true.
      split; [reflexivity |]. right.
      exists st1, w, sr, st2, sta, stems, (Ok tt), stb. repeat split; assumption.
    + eexists _, _. split; [reflexivity |]. right. exists false.
      split; [reflexivity |]. right.
      exists st1, w, sr, st2, sta, stems, (Raise e), stb. repeat split; try assumption.
      unfold W in *. simpl. rewrite !write_attempts_snoc. simpl. rewrite !app_nil_r. exact Hw.
Qed.

(** ** Enumerating a directory *)

Section Globbing.

Lemma fnmatch_literal (e nm : string) :
  no_wildcard e = true -> fnmatch e nm = String.eqb e nm.
Proof.
  revert nm. induction e as [| c e IH]; intros nm H; destruct nm as [| d nm];
    try reflexivity.
  - simpl in H. apply andb_true_iff in H as [H He].
    apply andb_true_iff in H as [Hs Hq].
    apply negb_true_iff in Hs, Hq. simpl. rewrite Hs. reflexivity.
  - simpl in H. apply andb_true_iff in H as [H He].
    apply andb_true_iff in H as [Hs Hq].
    apply negb_true_iff in Hs, Hq. simpl. rewrite Hs, Hq, (IH nm He).
    reflexivity.
Qed.

Lemma fnmatch_star_unfold (e nm : string) :
  fnmatch (String "*" e) nm
  = fnmatch e nm
    || match nm with
       | EmptyString => false
       | String _ nm' => fnmatch (String "*" e) nm'
       end.
Proof. destruct nm; reflexivity. Qed.

Lemma ends_with_cons (c : ascii) (nm e : string) :
  ends_with (String c nm) e <-> e = String c nm \/ ends_with nm e.
Proof.
  split.
  - intros [[| c' pre] H]; simpl in H.
    + left. symmetry. exact H.
    + right. injection H as _ H. exists pre. exact H.
  - intros [-> | [pre ->]].
    + exists "". reflexivity.
    + exists (String c pre). reflexivity.
Qed.

Lemma fnmatch_star (e nm : string) :
  no_wildcard e = true ->
  (fnmatch (String "*" e) nm = true <-> ends_with nm e).
Proof.
  intros He. induction nm as [| c nm IH].
  - rewrite fnmatch_star_unfold, orb_false_r, (fnmatch_literal _ _ He),
      String.eqb_eq.
    split.
    + intros ->. exists "". reflexivity.
    + intros [pre H]. destruct pre; simpl in H; [symmetry; exact H | discriminate].
  - rewrite fnmatch_star_unfold, orb_true_iff, (fnmatch_literal _ _ He),
      String.eqb_eq, IH, ends_with_cons. reflexivity.
Qed.

Lemma suffix_comparable (nm e1 e2 : string) :
  ends_with nm e1 -> ends_with nm e2 -> ends_with e1 e2 \/ ends_with e2 e1.
Proof.
  intros [pre1 H1] [pre2 H2]. subst nm. revert pre2 H2.
  induction pre1 as [| c pre1 IH]; intros pre2 H.
  - left. exists pre2. exact H.
  - destruct pre2 as [| c' pre2]; simpl in H.
    + right. exists (String c pre1). symmetry. exact H.
    + injection H as _ H. exact (IH pre2 H).
Qed.

(** The fourteen extensions [batch_split] builds its patterns from. *)
Lemma patterns_literal (e : string) :
  In e (SUPPORTED_FORMATS ++ map upper SUPPORTED_FORMATS) -> no_wildcard e = true.
Proof.
  intros H. simpl in H.
  repeat (destruct H as [<- | H]; [reflexivity |]). destruct H.
Qed.

Lemma patterns_exclusive (e1 e2 nm : string) :
  In e1 (SUPPORTED_FORMATS ++ map upper SUPPORTED_FORMATS) ->
  In e2 (SUPPORTED_FORMATS ++ map upper SUPPORTED_FORMATS) ->
  fnmatch (String "*" e1) nm = true -> fnmatch (String "*" e2) nm = true ->
  e1 = e2.
Proof.
  intros H1 H2 M1 M2.
  apply (fnmatch_star _ _ (patterns_literal _ H1)) in M1.
  apply (fnmatch_star _ _ (patterns_literal _ H2)) in M2.
  assert (T : forallb (fun a => forallb (fun b =>
                implb (fnmatch (String "*" a) b) (String.eqb a b))
                (SUPPORTED_FORMATS ++ map upper SUPPORTED_FORMATS))
                (SUPPORTED_FORMATS ++ map upper SUPPORTED_FORMATS) = true)
    by (vm_compute; reflexivity).
  rewrite forallb_forall in T.
  destruct (suffix_comparable nm e1 e2 M1 M2) as [S | S].
  - apply (fnmatch_star _ _ (patterns_literal _ H2)) in S.
    specialize (T e2 H2). rewrite forallb_forall in T. specialize (T e1 H1).
    rewrite S in T. simpl in T. apply String.eqb_eq in T. symmetry. exact T.
  - apply (fnmatch_star _ _ (patterns_literal _ H1)) in S.
    specialize (T e1 H1). rewrite forallb_forall in T. specialize (T e2 H2).
    rewrite S in T. simpl in T. apply String.eqb_eq in T. exact T.
Qed.

Lemma NoDup_flat_map {A B : Type} (f : A -> list B) (l : list A) :
  NoDup l ->
  (forall x, In x l -> NoDup (f x)) ->
  (forall x y b, In x l -> In y l -> In b (f x) -> In b (f y) -> x = y) ->
  NoDup (flat_map f l).
Proof.
  induction l as [| a l IH]; intros Hl Hf Hx; simpl; [constructor |].
  inversion Hl as [| ? ? Hna Hl']; subst.
  apply NoDup_app.
  - apply Hf. left. reflexivity.
  - apply IH; [exact Hl' | |].
    + intros x Hin. apply Hf. right. exact Hin.
    + intros x y b Hxi Hyi. apply Hx; right; assumption.
  - intros b Hb Hb'. apply in_flat_map in Hb' as (y & Hy & Hby).
    assert (a = y) by (apply (Hx a y b); [left; reflexivity | right; exact Hy | exact Hb | exact Hby]).
    subst y. contradiction.
Qed.

Lemma upper_differs (ext : string) :
  In ext SUPPORTED_FORMATS -> upper ext <> ext.
Proof.
  intros H. repeat (destruct H as [<- | H]; [discriminate |]). destruct H.
Qed.

Lemma upper_injective_on_formats (e1 e2 : string) :
  In e1 SUPPORTED_FORMATS -> In e2 SUPPORTED_FORMATS ->
  upper e1 = upper e2 -> e1 = e2.
Proof.
  intros H1 H2 H.
  assert (L : forall e, In e SUPPORTED_FORMATS -> lower (upper e) = e).
  { intros e He. repeat (destruct He as [<- | He]; [reflexivity |]). destruct He. }
  rewrite <- (L e1 H1), <- (L e2 H2), H. reflexivity.
Qed.

Lemma in_patterns_lower (ext : string) :
  In ext SUPPORTED_FORMATS ->
  In ext (SUPPORTED_FORMATS ++ map upper SUPPORTED_FORMATS).
Proof. intros H. apply in_or_app. left. exact H. Qed.

Lemma in_patterns_upper (ext : string) :
  In ext SUPPORTED_FORMATS ->
  In (upper ext) (SUPPORTED_FORMATS ++ map upper SUPPORTED_FORMATS).
Proof. intros H. apply in_or_app. right. apply in_map. exact H. Qed.

(** No directory entry is enumerated twice. *)
Lemma matched_names_NoDup (exts names : list string) :
  Permutation SUPPORTED_FORMATS exts -> NoDup names ->
  NoDup (matched_names exts names).
Proof.
  intros Hperm Hnames. unfold matched_names.
  assert (Hin : forall e, In e exts -> In e SUPPORTED_FORMATS)
    by (intros e He; eapply Permutation_in; [apply Permutation_sym; exact Hperm | exact He]).
  apply NoDup_flat_map.
  - eapply Permutation_NoDup; [exact Hperm |].
    repeat constructor; simpl; intuition discriminate.
  - intros ext He. apply NoDup_app; try (apply NoDup_filter; exact Hnames).
    intros nm H1 H2. apply filter_In in H1 as [_ H1]. apply filter_In in H2 as [_ H2].
    apply (upper_differs ext (Hin ext He)). symmetry.
    exact (patterns_exclusive _ _ nm (in_patterns_lower _ (Hin _ He))
             (in_patterns_upper _ (Hin _ He)) H1 H2).
  - intros x y nm Hx Hy H1 H2.
    apply in_app_or in H1. apply in_app_or in H2.
    pose proof (Hin x Hx) as Hsx. pose proof (Hin y Hy) as Hsy.
    destruct H1 as [H1 | H1]; destruct H2 as [H2 | H2];
      apply filter_In in H1 as [_ H1]; apply filter_In in H2 as [_ H2].
    + exact (patterns_exclusive _ _ nm (in_patterns_lower _ Hsx) (in_patterns_lower _ Hsy) H1 H2).
    + exfalso.
      pose proof (patterns_exclusive _ _ nm (in_patterns_lower _ Hsx) (in_patterns_upper _ Hsy) H1 H2) as Heq.
      assert (L : forall a b, In a SUPPORTED_FORMATS -> In b SUPPORTED_FORMATS -> a <> upper b).
      { intros a b Ha Hb.
        repeat (destruct Ha as [<- | Ha]; [repeat (destruct Hb as [<- | Hb]; [discriminate |]); destruct Hb |]).
        destruct Ha. }
      exact (L x y Hsx Hsy Heq).
    + exfalso.
      pose proof (patterns_exclusive _ _ nm (in_patterns_upper _ Hsx) (in_patterns_lower _ Hsy) H1 H2) as Heq.
      assert (L : forall a b, In a SUPPORTED_FORMATS -> In b SUPPORTED_FORMATS -> a <> upper b).
      { intros a b Ha Hb.
        repeat (destruct Ha as [<- | Ha]; [repeat (destruct Hb as [<- | Hb]; [discriminate |]); destruct Hb |]).
        destruct Ha. }
      exact (L y x Hsy Hsx (eq_sym Heq)).
    + apply upper_injective_on_formats; try assumption.
      exact (patterns_exclusive _ _ nm (in_patterns_upper _ Hsx) (in_patterns_upper _ Hsy) H1 H2).
Qed.

Lemma matched_names_incl (exts names : list string) :
  incl (matched_names exts names) names.
Proof.
  intros nm H. unfold matched_names in H.
  apply in_flat_map in H as (ext & _ & H).
  apply in_app_or in H as [H | H]; apply filter_In in H as [H _]; exact H.
Qed.

End Globbing.

(** ** Batches *)

Section Batch.
Context (E : Env).

Lemma find_audio_files_run (d : Path) (exts : list string) (acc : list Path)
    (st : State E) :
  exists st',
    find_audio_files E d exts acc st
    = (Ok (acc ++ map (joinpath d) (matched_names exts (os_scandir E (fs st) d))), st')
    /\ fs st' = fs st /\ self_model st' = self_model st /\ W st' = W st.
Proof.
  revert acc st. induction exts as [| ext rest IH]; intros acc st.
  - exists st. simpl. rewrite app_nil_r. repeat split; reflexivity.
  - simpl. unfold bind at 1. unfold glob at 1.
    unfold bind at 1. unfold glob at 1.
    destruct (IH ((acc ++ map (joinpath d)
                     (filter (fnmatch ("*" ++ ext)) (os_scandir E (fs st) d)))
                  ++ map (joinpath d)
                       (filter (fnmatch ("*" ++ upper ext))
                          (os_scandir E (fs (log st (Glob d ("*" ++ ext))%string)) d)))
                 (log (log st (Glob d ("*" ++ ext)%string))
                      (Glob d ("*" ++ upper ext)%string)))
      as (st' & Hrun & Hfs & Hm & Hw).
    exists st'. simpl in *. rewrite Hrun. split.
    + f_equal. f_equal. rewrite !map_app, <- !app_assoc. reflexivity.
    + repeat split; try assumption.
      rewrite Hw. unfold W. simpl. rewrite !write_attempts_snoc. simpl.
      rewrite !app_nil_r. reflexivity.
Qed.

Lemma batch_loop_run (self : Self) (out : Path) (total : nat)
    (files : list Path) (i cnt : nat) (st : State E) :
  exists bs err st',
    runs_in_order E self out total i files st bs err st'
    /\ batch_loop E self out total files i cnt st
       = (match err with
          | None => Ok (cnt + count_true bs)
          | Some e => Raise e
          end, st').
Proof.
  revert i cnt st. induction files as [| f rest IH]; intros i cnt st.
  - exists [], None, st. simpl. unfold ret. rewrite Nat.add_0_r.
    split; [constructor | reflexivity].
  - simpl. unfold bind at 1. unfold console_print at 1, emit at 1.
    unfold bind at 1.
    destruct (split_audio_run E self f (Some (joinpath out (stem f)))
                (log st (Print (MsgBatchItem i total))))
      as (r & st1 & Hrun & [(e & -> & _) | (b & -> & _)]).
    + exists [], (Some e), st1. rewrite Hrun.
      split; [apply rio_raise; exact Hrun | reflexivity].
    + rewrite Hrun.
      destruct (IH (S i) (if b then cnt + 1 else cnt) st1)
        as (bs & err & st2 & Hchain & Hloop).
      exists (b :: bs), err, st2. split; [econstructor; eassumption |].
      rewrite Hloop. destruct err; [reflexivity |].
      f_equal. f_equal. unfold count_true. destruct b; simpl; lia.
Qed.

(** [batch_split] step by step: the existence check, the enumeration, and
    the loop. *)
Lemma batch_split_run (self : Self) (d : Path) (out : option Path)
    (st : State E) :
  let out' := match out with
              | None => joinpath d "stems"
              | Some o => o
              end in
  batch_split E self d out st
  = match os_exists E (fs st) d with
    | Raise e => (Raise e, log st (PathExists d))
    | Ok false => (Ok 0, log (log st (PathExists d)) (Print (MsgDirNotFound d)))
    | Ok true =>
        match find_audio_files E d (supported_formats self) []
                (log st (PathExists d)) with
        | (Raise e, st0) => (Raise e, st0)
        | (Ok [], st0) => (Ok 0, log st0 (Print MsgNoAudioFiles))
        | (Ok (f :: rest), st0) =>
            let total := length (f :: rest) in
            match batch_loop E self out' total (f :: rest) 1 0
                    (log st0 (Print (MsgFound total))) with
            | (Ok n, st2) => (Ok n, log st2 (Print (MsgBatchComplete n total)))
            | (Raise e, st2) => (Raise e, st2)
            end
        end
    end.
Proof.
  intros out'. unfold batch_split.
  unfold bind at 1. unfold path_exists at 1.
  destruct (os_exists E (fs st) d) as [[|] | e]; cbv beta iota; unfold negb;
    [| reflexivity | reflexivity].
  unfold bind at 1.
  destruct (find_audio_files E d (supported_formats self) []
              (log st (PathExists d))) as [[[| f rest] | e] st0];
    [reflexivity | | reflexivity].
  fold out'. unfold bind at 1. unfold console_print at 1, emit at 1.
  unfold bind at 1. cbv zeta.
  destruct (batch_loop E self out' (length (f :: rest)) (f :: rest) 1 0
              (log st0 (Print (MsgFound (length (f :: rest))))))
    as [[n | e] st2]; reflexivity.
Qed.

(** A batch over a directory that exists and holds audio files is the
    chain of its jobs, started after the enumeration and the count of the
    files, and ended by the summary unless a job raised. *)
Lemma batch_split_chain (self : Self) (d : Path) (out : option Path)
    (st st0 : State E) (files : list Path) :
  os_exists E (fs st) d = Ok true ->
  find_audio_files E d (supported_formats self) [] (log st (PathExists d))
  = (Ok files, st0) ->
  files <> [] ->
  let out' := match out with
              | None => joinpath d "stems"
              | Some o => o
              end in
  exists bs err st2,
    runs_in_order E self out' (length files) 1 files
      (log st0 (Print (MsgFound (length files)))) bs err st2
    /\ batch_split E self d out st
       = match err with
         | None =>
             (Ok (count_true bs),
              log st2 (Print (MsgBatchComplete (count_true bs) (length files))))
         | Some e => (Raise e, st2)
         end.
Proof.
  intros Hex Hfind Hne out'.
  rewrite (batch_split_run self d out st), Hex, Hfind. fold out'.
  destruct files as [| f rest]; [contradiction |]. cbv zeta.
  destruct (batch_loop_run self out' (length (f :: rest)) (f :: rest) 1 0
              (log st0 (Print (MsgFound (length (f :: rest))))))
    as (bs & err & st2 & Hchain & Hloop).
  exists bs, err, st2. split; [exact Hchain |].
  rewrite Hloop. destruct err; reflexivity.
Qed.


(** A chain that no job ended has run every file; one that a job ended has
    run the files before it. *)
Lemma runs_in_order_length (self : Self) (out : Path) (total i : nat)
    (files : list Path) (st st' : State E) (bs : list bool) (err : option exn) :
  runs_in_order E self out total i files st bs err st' ->
  length bs <= length files /\ (err = None -> length bs = length files).
Proof.
  induction 1 as [| ? ? ? ? ? ? ? ? ? ? ? [IH1 IH2] |]; simpl.
  - split; reflexivity.
  - split; [lia | intros He; rewrite (IH2 He); reflexivity].
  - split; [lia | discriminate].
Qed.



End Batch.

(** ** Paths *)

Section Paths.

Lemma length_app_string (a b : string) :
  String.length (a ++ b) = String.length a + String.length b.
Proof. induction a as [| c a IH]; simpl; [reflexivity | rewrite IH; reflexivity]. Qed.

Lemma drop_app (pre e : string) : drop (String.length pre) (pre ++ e) = e.
Proof. induction pre as [| c pre IH]; simpl; [destruct e; reflexivity | exact IH]. Qed.

Lemma take_length (n : nat) (s : string) :
  n <= String.length s -> String.length (take n s) = n.
Proof.
  revert s. induction n as [| n IH]; intros s H; [reflexivity |].
  destruct s as [| c s]; simpl in *; [lia |]. rewrite IH; [reflexivity | lia].
Qed.

(** The last dot of a name that ends with [.rest], [rest] free of dots. *)
Lemma rfind_app_dot (pre rest : string) :
  rfind rest "." = (-1)%Z ->
  rfind (pre ++ String "." rest) "." = Z.of_nat (String.length pre).
Proof.
  intros H. induction pre as [| c pre IH].
  - cbn [append rfind]. cbv zeta. rewrite H. reflexivity.
  - cbn [append rfind String.length]. cbv zeta. rewrite IH.
    destruct (0 <=? Z.of_nat (String.length pre))%Z eqn:Hle; [lia |].
    apply Z.leb_gt in Hle. lia.
Qed.

(** A name that ends with an extension [.rest] has that extension as its
    suffix, unless the name is the extension itself (a hidden file). *)
Lemma suffix_of_ends_with (nm rest : string) :
  rfind rest "." = (-1)%Z -> rest <> "" ->
  ends_with nm (String "." rest) ->
  suffix_of_name nm = String "." rest \/ suffix_of_name nm = "".
Proof.
  intros Hr Hne [pre ->]. unfold suffix_of_name.
  rewrite (rfind_app_dot pre rest Hr).
  destruct ((0 <? Z.of_nat (String.length pre))
            && (Z.of_nat (String.length pre) <? len (pre ++ String "." rest) - 1))%Z;
    [left | right; reflexivity].
  unfold slice_from. rewrite Nat2Z.id. apply drop_app.
Qed.

Lemma stem_of_name_nonempty (nm : string) : nm <> "" -> stem_of_name nm <> "".
Proof.
  intros Hne. unfold stem_of_name.
  destruct ((0 <? rfind nm ".") && (rfind nm "." <? len nm - 1))%Z eqn:H;
    [| exact Hne].
  apply andb_true_iff in H as [H1 H2].
  apply Z.ltb_lt in H1. apply Z.ltb_lt in H2. unfold len in H2.
  intros Hs. apply (f_equal String.length) in Hs. unfold slice_to in Hs.
  rewrite take_length in Hs by lia. simpl in Hs. lia.
Qed.

(** Joining a component that is neither empty nor a dot appends it. *)
Lemma joinpath_append (d : Path) (s : string) :
  s <> "" -> s <> "." -> joinpath d s = mkPath (anchor d) (parts d ++ [s]).
Proof.
  intros Hne Hdot. unfold joinpath.
  destruct (String.eqb s "") eqn:H1; [apply String.eqb_eq in H1; contradiction |].
  destruct (String.eqb s ".") eqn:H2; [apply String.eqb_eq in H2; contradiction |].
  reflexivity.
Qed.

Lemma name_joinpath (d : Path) (s : string) :
  s <> "" -> s <> "." -> name (joinpath d s) = s.
Proof.
  intros Hne Hdot. rewrite (joinpath_append d s Hne Hdot).
  unfold name. simpl parts. apply last_last.
Qed.

Lemma parent_joinpath (d : Path) (s : string) :
  s <> "" -> s <> "." -> parent (joinpath d s) = d.
Proof.
  intros Hne Hdot. rewrite (joinpath_append d s Hne Hdot).
  unfold parent. simpl. rewrite removelast_last. destruct d; reflexivity.
Qed.

Lemma app_nonempty_r (a b : string) : b <> "" -> (a ++ b)%string <> "".
Proof.
  intros Hb H. apply (f_equal String.length) in H.
  rewrite length_app_string in H. destruct b; [contradiction | simpl in H; lia].
Qed.

Lemma app_not_dot (a b : string) : 2 <= String.length b -> (a ++ b)%string <> ".".
Proof.
  intros Hb H. apply (f_equal String.length) in H.
  rewrite length_app_string in H. simpl in H. lia.
Qed.

(** The name of a stem file is a component of its own. *)
Lemma stem_file_name (base nm : string) :
  (base ++ "_" ++ nm ++ ".wav")%string <> ""
  /\ (base ++ "_" ++ nm ++ ".wav")%string <> ".".
Proof.
  split.
  - apply app_nonempty_r. discriminate.
  - apply app_not_dot. cbn [append String.length].
    rewrite length_app_string. cbn [String.length]. lia.
Qed.

Lemma stem_file_parent (out : Path) (base : string) (f : Path) :
  In f (stem_files out base) -> parent f = out.
Proof.
  unfold stem_files. intros H. apply in_map_iff in H as (item & <- & _).
  unfold stem_file. apply parent_joinpath; apply stem_file_name.
Qed.

(** The fourteen extensions are a dot and a dot-free, non-empty rest. *)
Lemma patterns_shape (e : string) :
  In e (SUPPORTED_FORMATS ++ map upper SUPPORTED_FORMATS) ->
  exists rest, e = String "." rest /\ rfind rest "." = (-1)%Z /\ rest <> "".
Proof.
  intros H. simpl in H.
  repeat (destruct H as [<- | H];
          [eexists; split; [reflexivity | split; [reflexivity | discriminate]] |]).
  destruct H.
Qed.

Lemma upper_idempotent_on_formats (ext : string) :
  In ext SUPPORTED_FORMATS -> upper (upper ext) = upper ext.
Proof.
  intros H. repeat (destruct H as [<- | H]; [reflexivity |]). destruct H.
Qed.

End Paths.

(** ** Output paths *)

Lemma written_are_attempts (tr : list event) (f : Path) :
  In f (written_files tr) -> In f (write_attempts tr).
Proof.
  unfold written_files, write_attempts. intros H.
  apply in_flat_map in H as (ev & Hev & Hf). apply in_flat_map.
  exists ev. split; [exact Hev |].
  destruct ev; try contradiction. simpl in *.
  match goal with b : bool |- _ => destruct b end; [exact Hf | contradiction].
Qed.

(** What one call of [split_audio] asks [sf.write] to write. *)
Lemma split_audio_writes (E : Env) (self : Self) (p out : Path) (st : State E) :
  stem_names self = STEM_NAMES ->
  let r := split_audio E self p (Some out) st in
  (exists k, W (snd r) = W st ++ firstn k (stem_files out (stem p)))
  /\ (fst r = Ok true -> W (snd r) = W st ++ stem_files out (stem p)).
Proof.
  intros Hn r. subst r.
  destruct (split_audio_run E self p (Some out) st) as (r & st' & Hrun & Hcases).
  rewrite Hrun. simpl fst. simpl snd.
  destruct Hcases as [(e & -> & -> & _) | (b & -> & Hcases)].
  - split; [exists 0 | discriminate].
    unfold W. simpl. rewrite write_attempts_snoc. simpl. rewrite !app_nil_r.
    reflexivity.
  - destruct Hcases as [[-> Hw] | (s1 & w & sr & s2 & sta & stems & r & stb
                                    & _ & Hsta & Hsave & Hw & ->)].
    + split; [exists 0; rewrite Hw; simpl; symmetry; apply app_nil_r | discriminate].
    + pose proof (save_stems_run E self stems sr out (stem p) sta Hn) as H.
      rewrite Hsave in H. simpl in H. rewrite Hsta, <- Hw in H.
      destruct H as [Hk Hall]. split; [exact Hk |].
      intros Hb. injection Hb as Hb. exact (Hall Hb).
Qed.

Lemma append_cancel_l (a b c : string) : (a ++ b)%string = (a ++ c)%string -> b = c.
Proof.
  induction a as [| x a IH]; simpl; intros H; [exact H |].
  injection H as H. apply IH, H.
Qed.





(** ** What a batch enumerates *)

(** A name that one of the patterns matches is a component of its own, an
    entry of the directory, and ends with an extension. *)
Lemma matched_name_shape (exts names : list string) (nm : string) :
  Permutation SUPPORTED_FORMATS exts ->
  In nm (matched_names exts names) ->
  nm <> "" /\ nm <> "." /\ In nm names
  /\ exists e, In e (SUPPORTED_FORMATS ++ map upper SUPPORTED_FORMATS)
               /\ ends_with nm e.
Proof.
  intros Hperm Hnm.
  pose proof (matched_names_incl _ _ _ Hnm) as Hdir.
  unfold matched_names in Hnm. apply in_flat_map in Hnm as (ext & Hext & Hm).
  assert (Hin : In ext SUPPORTED_FORMATS)
    by (eapply Permutation_in; [apply Permutation_sym; exact Hperm | exact Hext]).
  assert (He : exists e, In e (SUPPORTED_FORMATS ++ map upper SUPPORTED_FORMATS)
                         /\ ends_with nm e).
  { apply in_app_or in Hm as [Hm | Hm]; apply filter_In in Hm as [_ Hm].
    - exists ext. split; [apply in_patterns_lower, Hin |].
      apply (fnmatch_star _ _ (patterns_literal _ (in_patterns_lower _ Hin))), Hm.
    - exists (upper ext). split; [apply in_patterns_upper, Hin |].
      apply (fnmatch_star _ _ (patterns_literal _ (in_patterns_upper _ Hin))), Hm. }
  assert (Hlen : nm <> "" /\ nm <> ".").
  { destruct He as (e & He & [pre ->]).
    destruct (patterns_shape e He) as (rest & -> & _ & Hrest).
    split; [apply app_nonempty_r; discriminate |].
    apply app_not_dot. destruct rest; [contradiction | simpl; lia]. }
  destruct Hlen as [H1 H2]. repeat split; assumption.
Qed.

(** What [find_audio_files] returns from an empty list: the entries that
    the patterns match, as paths of the directory. *)
Lemma find_audio_files_files (E : Env) (d : Path) (exts : list string)
    (st st0 : State E) (files : list Path) :
  find_audio_files E d exts [] st = (Ok files, st0) ->
  files = map (joinpath d) (matched_names exts (os_scandir E (fs st) d))
  /\ fs st0 = fs st /\ self_model st0 = self_model st /\ W st0 = W st.
Proof.
  intros Hfind.
  destruct (find_audio_files_run E d exts [] st) as (st' & Hrun & Hfs & Hm & Hw).
  rewrite Hfind in Hrun. injection Hrun as -> <-.
  repeat split; assumption.
Qed.

(** An enumerated file lies in the directory under a name that is a
    component of its own, and has a stem. *)
Lemma found_file_shape (E : Env) (self : Self) (d : Path) (st st0 : State E)
    (files : list Path) (f : Path) :
  constructed self ->
  find_audio_files E d (supported_formats self) [] st = (Ok files, st0) ->
  In f files ->
  exists nm, f = joinpath d nm /\ name f = nm /\ nm <> "" /\ nm <> "."
             /\ In nm (os_scandir E (fs st) d)
             /\ (exists e, In e (SUPPORTED_FORMATS ++ map upper SUPPORTED_FORMATS)
                           /\ ends_with nm e)
             /\ stem f <> "".
Proof.
  intros [Hperm _] Hfind Hf.
  destruct (find_audio_files_files E d _ st st0 files Hfind) as (-> & _).
  apply in_map_iff in Hf as (nm & <- & Hnm).
  destruct (matched_name_shape _ _ _ Hperm Hnm) as (H1 & H2 & H3 & H4).
  exists nm. rewrite (name_joinpath d nm H1 H2). repeat split; try assumption.
  unfold stem. rewrite (name_joinpath d nm H1 H2).
  apply stem_of_name_nonempty, H1.
Qed.

(** C10.  The files [batch_split] enumerates, that is what
    [find_audio_files] returns and the jobs of the batch are run on, are
    the directory entries whose name ends with a supported extension as
    written or with its upper-case form.  So an entry whose extension mixes
    cases, neither its own lower-case nor its own upper-case form, is not
    among them, although [is_supported_format] accepts it. *)
Theorem batch_split_skips_mixed_case (E : Env) (self : Self) (d : Path)
    (out : option Path) (st : State E) :
  constructed self ->
  let out' := match out with
              | None => joinpath d "stems"
              | Some o => o
              end in
  exists files st0,
    find_audio_files E d (supported_formats self) [] (log st (PathExists d))
    = (Ok files, st0)
    /\ (forall f, In f files <->
          exists nm ext, f = joinpath d nm /\ In nm (os_scandir E (fs st) d)
                         /\ In ext SUPPORTED_FORMATS
                         /\ (ends_with nm ext \/ ends_with nm (upper ext)))
    /\ (forall nm,
          is_supported_format self (joinpath d nm) = true ->
          lower (suffix (joinpath d nm)) <> suffix (joinpath d nm) ->
          upper (suffix (joinpath d nm)) <> suffix (joinpath d nm) ->
          ~ In (joinpath d nm) files)
    /\ (os_exists E (fs st) d = Ok true -> files <> [] ->
        exists bs err st2,
          runs_in_order E self out' (length files) 1 files
            (log st0 (Print (MsgFound (length files)))) bs err st2
          /\ batch_split E self d out st
             = match err with
               | None =>
                   (Ok (count_true bs),
                    log st2 (Print (MsgBatchComplete (count_true bs) (length files))))
               | Some e => (Raise e, st2)
               end).
Proof.
  intros Hc out'.
  destruct (find_audio_files_run E d (supported_formats self) []
              (log st (PathExists d))) as (st0 & Hfind & _).
  change (fs (log st (PathExists d))) with (fs st) in Hfind.
  change ([] ++ ?l) with l in Hfind.
  eexists _, st0. split; [exact Hfind |].
  assert (Hup : forall e, In e (SUPPORTED_FORMATS ++ map upper SUPPORTED_FORMATS) ->
                  exists ext, In ext SUPPORTED_FORMATS /\ (e = ext \/ e = upper ext)).
  { intros e He. apply in_app_or in He as [He | He].
    - exists e. split; [exact He | left; reflexivity].
    - apply in_map_iff in He as (ext & <- & He).
      exists ext. split; [exact He | right; reflexivity]. }
  split; [| split].
  - intros f. split.
    + intros Hf.
      destruct (found_file_shape E self d _ st0 _ f Hc Hfind Hf)
        as (nm & -> & _ & _ & _ & Hdir & (e & He & Hends) & _).
      destruct (Hup e He) as (ext & Hext & [-> | ->]);
        exists nm, ext; repeat split; auto.
    + intros (nm & ext & -> & Hdir & Hext & Hends).
      apply in_map. unfold matched_names. apply in_flat_map.
      exists ext. split.
      * eapply Permutation_in; [exact (proj1 Hc) | exact Hext].
      * apply in_or_app.
        destruct Hends as [H | H]; [left | right]; apply filter_In;
          (split; [exact Hdir |]).
        -- apply (fnmatch_star _ _ (patterns_literal _ (in_patterns_lower _ Hext))), H.
        -- apply (fnmatch_star _ _ (patterns_literal _ (in_patterns_upper _ Hext))), H.
  - intros nm _ Hlo Hupp Hin.
    destruct (found_file_shape E self d _ st0 _ _ Hc Hfind Hin)
      as (nm' & Heq & _ & Hne & Hdot & _ & (e & He & Hends) & _).
    rewrite Heq in Hlo, Hupp. unfold suffix in Hlo, Hupp.
    rewrite (name_joinpath d nm' Hne Hdot) in Hlo, Hupp.
    destruct (patterns_shape e He) as (rest & -> & Hrest & Hrne).
    destruct (suffix_of_ends_with nm' rest Hrest Hrne Hends) as [Hs | Hs];
      rewrite Hs in Hlo, Hupp; [| apply Hlo; reflexivity].
    destruct (Hup _ He) as (ext & Hext & [Hx | Hx]); rewrite Hx in Hlo, Hupp.
    + apply Hlo. apply supported_formats_lowercase, Hext.
    + apply Hupp. apply upper_idempotent_on_formats, Hext.
  - intros Hex Hne.
    apply (batch_split_chain E self d out st st0 _ Hex Hfind Hne).
Qed.

Lemma batch_split_skips_mixed_case_witness :
  exists files st0,
    find_audio_files Demo.env Demo.music (supported_formats Demo.self) []
      (log Demo.start (PathExists Demo.music)) = (Ok files, st0)
    /\ files = [joinpath Demo.music "a.mp3"; joinpath Demo.music "b.WAV";
                joinpath Demo.music "noise.ogg"]
    /\ In "c.Mp3" (os_scandir Demo.env (fs Demo.start) Demo.music)
    /\ is_supported_format Demo.self (joinpath Demo.music "c.Mp3") = true
    /\ ~ In (joinpath Demo.music "c.Mp3") files
    /\ exists bs err st2,
         runs_in_order Demo.env Demo.self (joinpath Demo.music "stems")
           (length files) 1 files
           (log st0 (Print (MsgFound (length files)))) bs err st2
         /\ batch_split Demo.env Demo.self Demo.music None Demo.start
            = match err with
              | None =>
                  (Ok (count_true bs),
                   log st2 (Print (MsgBatchComplete (count_true bs) (length files))))
              | Some e => (Raise e, st2)
              end.
Proof.
  destruct (batch_split_skips_mixed_case Demo.env Demo.self Demo.music None
              Demo.start (conj (Permutation_refl _) eq_refl))
    as (files & st0 & Hfind & _ & Hmixed & Hchain).
  exists files, st0. split; [exact Hfind |].
  assert (Hfiles : files = [joinpath Demo.music "a.mp3"; joinpath Demo.music "b.WAV";
                            joinpath Demo.music "noise.ogg"])
    by (vm_compute in Hfind; injection Hfind as <- _; reflexivity).
  split; [exact Hfiles |].
  split; [simpl; auto |]. split; [reflexivity |].
  split; [apply (Hmixed "c.Mp3"); [reflexivity | discriminate | discriminate] |].
  apply Hchain; [reflexivity | rewrite Hfiles; discriminate].
Defined.

(** ** Where a batch writes *)

Section BatchWrites.
Context (E : Env).

Lemma count_true_le (bs : list bool) : count_true bs <= length bs.
Proof.
  unfold count_true. induction bs as [| [|] bs IH]; simpl; lia.
Qed.

Lemma W_log_print (st : State E) (m : message) : W (log st (Print m)) = W st.
Proof. unfold W. simpl. rewrite write_attempts_snoc. apply app_nil_r. Qed.

(** What the jobs of a chain hand to [sf.write]: stem files of the files of
    the chain, each in the directory of its file; and the four stem files
    of every file, in order, when every job returned [True]. *)
Lemma runs_in_order_writes (self : Self) (out : Path) (total i : nat)
    (files : list Path) (st st' : State E) (bs : list bool) (err : option exn) :
  stem_names self = STEM_NAMES ->
  runs_in_order E self out total i files st bs err st' ->
  (exists new,
     W st' = W st ++ new
     /\ forall g, In g new ->
          exists f, In f files /\ In g (stem_files (joinpath out (stem f)) (stem f)))
  /\ (count_true bs = length files ->
      W st' = W st
              ++ flat_map (fun f => stem_files (joinpath out (stem f)) (stem f)) files).
Proof.
  intros Hn Hchain.
  induction Hchain as [i st | i f rest st st1 st2 b bs err Hrun Hrest [IH1 IH2]
                       | i f rest st st1 e Hrun].
  - split; [exists []; split; [symmetry; apply app_nil_r | intros g []] |].
    intros _. symmetry. apply app_nil_r.
  - destruct (split_audio_writes E self f (joinpath out (stem f))
                (log st (Print (MsgBatchItem i total))) Hn) as [(k & Hk) Hall].
    rewrite Hrun in Hk, Hall. cbn [fst snd] in Hk, Hall.
    rewrite W_log_print in Hk, Hall.
    split.
    + destruct IH1 as (new & Hw & Hin).
      exists (firstn k (stem_files (joinpath out (stem f)) (stem f)) ++ new).
      split; [rewrite Hw, Hk, <- app_assoc; reflexivity |].
      intros g Hg. apply in_app_or in Hg as [Hg | Hg].
      * exists f. split; [left; reflexivity |].
        rewrite <- (firstn_skipn k (stem_files _ _)). apply in_or_app. left. exact Hg.
      * destruct (Hin g Hg) as (f' & Hf' & Hg'). exists f'.
        split; [right; exact Hf' | exact Hg'].
    + intros Hcount.
      pose proof (proj1 (runs_in_order_length E _ _ _ _ _ _ _ _ _ Hrest)) as Hlen.
      pose proof (count_true_le bs) as Hle.
      unfold count_true in Hcount, Hle. cbn [length] in Hcount.
      destruct b; cbn [filter length] in Hcount; [| lia].
      cbn [flat_map]. rewrite IH2 by (unfold count_true; lia).
      rewrite (Hall eq_refl), <- app_assoc. reflexivity.
  - destruct (split_audio_writes E self f (joinpath out (stem f))
                (log st (Print (MsgBatchItem i total))) Hn) as [(k & Hk) _].
    rewrite Hrun in Hk. cbn [snd] in Hk. rewrite W_log_print in Hk.
    split; [| cbn; discriminate].
    exists (firstn k (stem_files (joinpath out (stem f)) (stem f))).
    split; [exact Hk |]. intros g Hg. exists f. split; [left; reflexivity |].
    rewrite <- (firstn_skipn k (stem_files _ _)). apply in_or_app. left. exact Hg.
Qed.

(** The same of a whole batch. *)
Lemma batch_split_writes (self : Self) (d : Path) (out : option Path)
    (st st0 : State E) (files : list Path) :
  stem_names self = STEM_NAMES ->
  os_exists E (fs st) d = Ok true ->
  find_audio_files E d (supported_formats self) [] (log st (PathExists d))
  = (Ok files, st0) ->
  let out' := match out with
              | None => joinpath d "stems"
              | Some o => o
              end in
  (exists new,
     W (snd (batch_split E self d out st)) = W st ++ new
     /\ forall g, In g new ->
          exists f, In f files
                    /\ In g (stem_files (joinpath out' (stem f)) (stem f)))
  /\ (fst (batch_split E self d out st) = Ok (length files) ->
      W (snd (batch_split E self d out st))
      = W st ++ flat_map (fun f => stem_files (joinpath out' (stem f)) (stem f))
                  files).
Proof.
  intros Hn Hex Hfind out'.
  destruct (find_audio_files_files E d _ _ st0 files Hfind) as (_ & _ & _ & Hw0).
  assert (H0 : W st0 = W st).
  { rewrite Hw0. unfold W. simpl. rewrite write_attempts_snoc. apply app_nil_r. }
  destruct files as [| f rest] eqn:Hfiles.
  - rewrite (batch_split_run E self d out st), Hex, Hfind. cbn [fst snd].
    rewrite W_log_print, H0.
    split; [exists []; split; [symmetry; apply app_nil_r | intros g []] |].
    intros _. symmetry. apply app_nil_r.
  - rewrite <- Hfiles in *.
    assert (Hne : files <> []) by (rewrite Hfiles; discriminate).
    destruct (batch_split_chain E self d out st st0 files Hex Hfind Hne)
      as (bs & err & st2 & Hchain & Hrun).
    fold out' in Hchain.
    destruct (runs_in_order_writes self out' _ _ _ _ _ _ _ Hn Hchain)
      as [(new & Hw & Hin) Hall].
    rewrite W_log_print, H0 in Hw, Hall.
    rewrite Hrun. destruct err as [e |]; cbn [fst snd].
    + split; [exists new; split; assumption | discriminate].
    + rewrite W_log_print.
      split; [exists new; split; assumption |].
      intros Hcount. injection Hcount as Hcount. exact (Hall Hcount).
Qed.

End BatchWrites.

(** ** Default output directories *)




(** ** Batches end, and count *)





Lemma demo_entries_NoDup : NoDup (os_scandir Demo.env (fs Demo.start) Demo.music).
Proof.
  apply (NoDup_count_occ' string_dec). intros x Hx. simpl in Hx.
  repeat (destruct Hx as [<- | Hx]; [reflexivity |]). destruct Hx.
Qed.



(** * Further properties of the methods *)

(** ** [load_audio] *)

Lemma rectangular_float (E : Env) (n : nat) (t : list (list (sample E))) :
  rectangular n t -> rectangular n (float E t).
Proof.
  unfold rectangular, float. intros H. apply Forall_map.
  eapply Forall_impl; [| exact H]. intros row Hrow. simpl.
  rewrite length_map. exact Hrow.
Qed.

(** X1.  When [torchaudio] decodes the file to at least one channel of [n]
    samples each, [load_audio] returns two channels of [n] samples each
    and the sample rate [torchaudio] gave, and never calls [librosa]: a
    mono source is doubled, a source of more than two channels is cut to
    its first two, a stereo source is kept. *)
Theorem load_audio_primary_stereo (E : Env) (file_path : Path) (st : State E)
    (w : list (list (sample E))) (sr : Z) (n : nat) :
  torchaudio_load E (fs st) file_path = Ok (w, sr) ->
  1 <= shape0 w ->
  rectangular n w ->
  let r := load_audio E file_path st in
  exists w',
    fst r = Ok (w', sr)
    /\ shape0 w' = 2
    /\ rectangular n w'
    /\ (shape0 w = 1 -> w' = float E w ++ float E w)
    /\ (2 <= shape0 w -> w' = firstn 2 (float E w))
    /\ librosa_calls (trace (snd r)) = librosa_calls (trace st)
    /\ fs (snd r) = fs st.
Proof.
  intros Hload Hch Hrect r. subst r.
  pose proof (rectangular_float E n w Hrect) as Hf.
  unfold load_audio, try_except, bind, call_torchaudio_load. rewrite Hload.
  rewrite shape0_float.
  destruct (shape0 w =? 1) eqn:H1; [| destruct (2 <? shape0 w) eqn:H2];
    cbn [fst snd ret]; eexists; (split; [reflexivity |]);
    rewrite ?trace_log, ?librosa_calls_snoc, ?fs_log.
  - apply Nat.eqb_eq in H1. unfold repeat_2_1, shape0, float in *.
    repeat split.
    + rewrite length_app, length_map. lia.
    + apply Forall_app. split; exact Hf.
    + intros H. lia.
    + apply app_nil_r.
  - apply Nat.ltb_lt in H2. unfold first_two, shape0 in *.
    repeat split.
    + rewrite length_firstn. unfold float. rewrite length_map. lia.
    + unfold rectangular in *. apply Forall_forall. intros row Hrow.
      rewrite Forall_forall in Hf. apply Hf.
      rewrite <- (firstn_skipn 2 (float E w)). apply in_or_app. left. exact Hrow.
    + intros H. lia.
    + apply app_nil_r.
  - apply Nat.eqb_neq in H1. apply Nat.ltb_ge in H2.
    repeat split.
    + rewrite shape0_float. lia.
    + exact Hf.
    + intros H. contradiction.
    + intros _. symmetry. apply firstn_all2. unfold float, shape0 in *.
      rewrite length_map. exact H2.
    + apply app_nil_r.
Qed.

Lemma load_audio_primary_stereo_witness :
  let p := mkPath "" ["music"; "b.WAV"] in
  let r := load_audio Demo.env p Demo.start in
  exists w',
    fst r = Ok (w', 22050%Z)
    /\ shape0 w' = 2
    /\ rectangular 2 w'
    /\ (shape0 Demo.mono = 1 -> w' = float Demo.env Demo.mono ++ float Demo.env Demo.mono)
    /\ (2 <= shape0 Demo.mono -> w' = firstn 2 (float Demo.env Demo.mono))
    /\ librosa_calls (trace (snd r)) = librosa_calls (trace Demo.start)
    /\ fs (snd r) = fs Demo.start.
Proof.
  apply (load_audio_primary_stereo Demo.env (mkPath "" ["music"; "b.WAV"])
           Demo.start Demo.mono 22050%Z 2).
  - reflexivity.
  - simpl. lia.
  - repeat constructor.
Defined.

(** X2.  When [torchaudio] raises and [librosa] decodes the file,
    [load_audio] returns what [librosa] read with its sample rate: a
    one-dimensional array as two equal channels, a two-dimensional array
    with every channel it has.  So the result has two channels exactly when
    the array is one-dimensional or has two rows. *)
Theorem load_audio_fallback_stereo_iff (E : Env) (file_path : Path)
    (st : State E) (e : exn) (audio : ndarray (sample E)) (sr : Z) :
  torchaudio_load E (fs st) file_path = Raise e ->
  librosa_load E (fs st) file_path = Ok (audio, sr) ->
  exists w',
    fst (load_audio E file_path st) = Ok (w', sr)
    /\ (forall a, audio = Arr1 a ->
          w' = [map (to_float32 E) a; map (to_float32 E) a])
    /\ (forall a, audio = Arr2 a -> w' = float E a)
    /\ (shape0 w' = 2 <->
        match audio with
        | Arr1 _ => True
        | Arr2 a => length a = 2
        end).
Proof.
  intros H1 H2.
  unfold load_audio, try_except, bind, call_torchaudio_load,
    call_librosa_load, emit. rewrite H1. simpl. rewrite H2. simpl.
  eexists. split; [reflexivity |].
  destruct audio as [a | a]; repeat split; try discriminate.
  - intros a' Ha. injection Ha as <-. reflexivity.
  - intros a' Ha. injection Ha as <-. reflexivity.
  - rewrite shape0_float. intros H. exact H.
  - rewrite shape0_float. intros H. exact H.
Qed.

Lemma load_audio_fallback_stereo_iff_witness :
  let p := mkPath "" ["voice.ogg"] in
  exists w',
    fst (load_audio Demo.env p Demo.start) = Ok (w', 16000%Z)
    /\ (forall a, Arr1 [9; 10]%Z = Arr1 a ->
          w' = [map (to_float32 Demo.env) a; map (to_float32 Demo.env) a])
    /\ (forall a, @Arr1 Z [9; 10]%Z = Arr2 a -> w' = float Demo.env a)
    /\ (shape0 w' = 2 <-> True).
Proof.
  apply (load_audio_fallback_stereo_iff Demo.env (mkPath "" ["voice.ogg"])
           Demo.start (LibraryError "torchaudio.load") (Arr1 [9; 10]%Z) 16000%Z);
    reflexivity.
Defined.

(** ** [load_model] *)

(** X3.  Once [load_model] has returned, the object holds a model, and a
    further call returns at once: it calls nothing and leaves the state as
    it is. *)
Theorem load_model_once (E : Env) (self : Self) (st st1 : State E) :
  load_model E self st = (Ok tt, st1) ->
  (exists m, self_model st1 = Some m)
  /\ load_model E self st1 = (Ok tt, st1).
Proof.
  unfold load_model, bind, get_self_model. cbv beta iota.
  destruct (self_model st) as [m |] eqn:Hm.
  - intros H. injection H as <-. rewrite Hm. split; [exists m |]; reflexivity.
  - unfold try_except, bind, call_get_model, set_self_model, call_module_to,
      console_print, emit, raise.
    destruct (get_model E (fs st) (model_name self)) as [files [mdl | e]];
      cbn; [| discriminate].
    destruct (module_to E mdl (device self)) as [mdl' | e]; cbn; [| discriminate].
    intros H. injection H as <-. cbn. split; [eexists |]; reflexivity.
Qed.

Lemma load_model_once_witness :
  let st1 := snd (load_model Demo.env Demo.self Demo.start) in
  (exists m, self_model st1 = Some m)
  /\ load_model Demo.env Demo.self st1 = (Ok tt, st1).
Proof.
  apply (load_model_once Demo.env Demo.self Demo.start).
  reflexivity.
Defined.

(** X4.  What a failed [load_model] leaves behind.  When [get_model]
    raises, the error is printed and raised again and the object still has
    no model.  When the model is fetched and moving it to the device
    raises, the error is printed and raised again too, but the object keeps
    the model just fetched: the next [load_model] returns at once, with the
    model never moved nor put in evaluation mode. *)
Theorem load_model_failure (E : Env) (self : Self) (st : State E) :
  self_model st = None ->
  (forall files e,
     get_model E (fs st) (model_name self) = (files, Raise e) ->
     let r := load_model E self st in
     fst r = Raise e
     /\ self_model (snd r) = None
     /\ trace (snd r)
        = trace st ++ [GetModel (model_name self); Print (MsgModelError e)])
  /\ (forall files mdl e,
        get_model E (fs st) (model_name self) = (files, Ok mdl) ->
        module_to E mdl (device self) = Raise e ->
        let r := load_model E self st in
        fst r = Raise e
        /\ self_model (snd r) = Some mdl
        /\ trace (snd r)
           = trace st ++ [GetModel (model_name self); ModuleTo (device self);
                          Print (MsgModelError e)]
        /\ load_model E self (snd r) = (Ok tt, snd r)).
Proof.
  intros Hm. split.
  - intros files e Hg r. subst r.
    unfold load_model, bind, get_self_model. cbv beta iota. rewrite Hm.
    unfold try_except, bind, call_get_model, console_print, emit, raise.
    rewrite Hg. cbn. rewrite Hm, <- !app_assoc. repeat split.
  - intros files mdl e Hg Hto r.
    assert (Hrun : load_model E self st
                   = (Raise e,
                      log (log (with_model E
                                  (with_fs E (log st (GetModel (model_name self))) files)
                                  mdl)
                             (ModuleTo (device self)))
                        (Print (MsgModelError e)))).
    { unfold load_model, bind, get_self_model. cbv beta iota. rewrite Hm.
      unfold try_except, bind, call_get_model, set_self_model, call_module_to,
        console_print, emit, raise.
      rewrite Hg. cbn. rewrite Hto. reflexivity. }
    subst r. rewrite Hrun. cbn. rewrite <- !app_assoc. repeat split.
Qed.

Lemma load_model_failure_witness :
  (forall files e,
     get_model Faulty.env_no_device (fs (Faulty.fresh Faulty.env_no_device [])) (model_name Demo.self)
     = (files, Raise e) ->
     let r := load_model Faulty.env_no_device Demo.self (Faulty.fresh Faulty.env_no_device []) in
     fst r = Raise e
     /\ self_model (snd r) = None
     /\ trace (snd r)
        = trace (Faulty.fresh Faulty.env_no_device [])
          ++ [GetModel (model_name Demo.self); Print (MsgModelError e)])
  /\ (forall files mdl e,
        get_model Faulty.env_no_device (fs (Faulty.fresh Faulty.env_no_device [])) (model_name Demo.self)
        = (files, Ok mdl) ->
        module_to Faulty.env_no_device mdl (device Demo.self) = Raise e ->
        let r := load_model Faulty.env_no_device Demo.self (Faulty.fresh Faulty.env_no_device []) in
        fst r = Raise e
        /\ self_model (snd r) = Some mdl
        /\ trace (snd r)
           = trace (Faulty.fresh Faulty.env_no_device [])
             ++ [GetModel (model_name Demo.self); ModuleTo (device Demo.self);
                 Print (MsgModelError e)]
        /\ load_model Faulty.env_no_device Demo.self (snd r) = (Ok tt, snd r)).
Proof.
  apply (load_model_failure Faulty.env_no_device Demo.self (Faulty.fresh Faulty.env_no_device [])).
  reflexivity.
Defined.

(** ** [split_audio]: what makes it return [False] *)



(** The first steps of a [split_audio] call on a supported, existing path:
    the gate, the existence check, the announcement, and the test of
    [self.model]. *)
Ltac enter_split_audio Hfmt Hex Hm :=
  unfold split_audio; rewrite Hfmt; cbn [negb];
  unfold bind at 1; unfold path_exists at 1; rewrite Hex; cbn [negb];
  unfold bind at 1; unfold console_print at 1, emit at 1;
  unfold try_except at 1; unfold bind at 1; unfold get_self_model at 1;
  cbn [self_model log]; rewrite Hm.

(** X6.  The model is loaded before the file is read.  On an object
    without a model, when [get_model] raises, [split_audio] returns [False]
    having checked the path, announced the file, asked for the model and
    reported the error twice on the console and once in the log: no decoder
    is called, and the object still has no model. *)
Theorem split_audio_model_failure (E : Env) (self : Self) (input_path : Path)
    (output_dir : option Path) (st : State E) (files : FS E) (e : exn) :
  is_supported_format self input_path = true ->
  os_exists E (fs st) input_path = Ok true ->
  self_model st = None ->
  get_model E (fs st) (model_name self) = (files, Raise e) ->
  let r := split_audio E self input_path output_dir st in
  fst r = Ok false
  /\ trace (snd r)
     = trace st
       ++ [PathExists input_path; Print (MsgProcessing (name input_path));
           GetModel (model_name self); Print (MsgModelError e);
           Print (MsgProcessError (name input_path) e);
           LogError input_path e]
  /\ self_model (snd r) = None.
Proof.
  intros Hfmt Hex Hm Hg r. subst r.
  destruct (split_audio E self input_path output_dir st) as [res st'] eqn:Hrun.
  revert Hrun. enter_split_audio Hfmt Hex Hm. unfold bind at 1.
  unfold load_model, bind, get_self_model, try_except, call_get_model,
    console_print, emit, raise, ret.
  cbn [self_model log fs]. rewrite Hm. cbn [self_model log fs]. rewrite Hg.
  cbn. intros H. injection H as <- <-. cbn. rewrite Hm, <- !app_assoc.
  repeat split.
Qed.

Lemma split_audio_model_failure_witness :
  let self := init "unknown" "cpu" SUPPORTED_FORMATS in
  let p := mkPath "" ["music"; "a.mp3"] in
  let e := LibraryError "get_model" in
  let r := split_audio Demo.env self p None Demo.start in
  fst r = Ok false
  /\ trace (snd r)
     = trace Demo.start
       ++ [PathExists p; Print (MsgProcessing (name p));
           GetModel (model_name self); Print (MsgModelError e);
           Print (MsgProcessError (name p) e); LogError p e]
  /\ self_model (snd r) = None.
Proof.
  apply (split_audio_model_failure Demo.env (init "unknown" "cpu" SUPPORTED_FORMATS)
           (mkPath "" ["music"; "a.mp3"]) None Demo.start []
           (LibraryError "get_model")); reflexivity.
Defined.

(** X7.  On an object whose model is loaded, when both decoders raise,
    [split_audio] returns [False]: each decoder was called once,
    [torchaudio]'s error went to the log as a warning, and the error
    reported is the one that wraps [librosa]'s.  Nothing else is called:
    no separation, no directory made, no file written. *)
Theorem split_audio_decode_failure (E : Env) (self : Self) (input_path : Path)
    (output_dir : option Path) (st : State E) (m : Model E) (e1 e2 : exn) :
  is_supported_format self input_path = true ->
  os_exists E (fs st) input_path = Ok true ->
  self_model st = Some m ->
  torchaudio_load E (fs st) input_path = Raise e1 ->
  librosa_load E (fs st) input_path = Raise e2 ->
  let r := split_audio E self input_path output_dir st in
  fst r = Ok false
  /\ trace (snd r)
     = trace st
       ++ [PathExists input_path; Print (MsgProcessing (name input_path));
           TorchaudioLoad input_path; LogWarning e1; LibrosaLoad input_path;
           Print (MsgProcessError (name input_path) (LoadFailure e2));
           LogError input_path (LoadFailure e2)]
  /\ fs (snd r) = fs st
  /\ self_model (snd r) = Some m.
Proof.
  intros Hfmt Hex Hm H1 H2 r. subst r.
  destruct (split_audio E self input_path output_dir st) as [res st'] eqn:Hrun.
  revert Hrun. enter_split_audio Hfmt Hex Hm. unfold bind at 1. unfold ret at 1.
  unfold bind at 1.
  unfold load_audio, try_except, bind, call_torchaudio_load, call_librosa_load,
    console_print, emit, raise, ret.
  cbn [self_model log fs]. rewrite H1. cbn [self_model log fs]. rewrite H2.
  cbn. intros H. injection H as <- <-. cbn. rewrite Hm, <- !app_assoc.
  repeat split.
Qed.

Lemma split_audio_decode_failure_witness :
  let p := mkPath "" ["music"; "noise.ogg"] in
  let e1 := LibraryError "torchaudio.load" in
  let e2 := LibraryError "librosa.load" in
  let st := Faulty.loaded Demo.env tt [] in
  let r := split_audio Demo.env Demo.self p None st in
  fst r = Ok false
  /\ trace (snd r)
     = trace st
       ++ [PathExists p; Print (MsgProcessing (name p));
           TorchaudioLoad p; LogWarning e1; LibrosaLoad p;
           Print (MsgProcessError (name p) (LoadFailure e2));
           LogError p (LoadFailure e2)]
  /\ fs (snd r) = fs st
  /\ self_model (snd r) = Some tt.
Proof.
  apply (split_audio_decode_failure Demo.env Demo.self
           (mkPath "" ["music"; "noise.ogg"]) None (Faulty.loaded Demo.env tt [])
           tt (LibraryError "torchaudio.load") (LibraryError "librosa.load"));
    reflexivity.
Defined.

(** X8.  A decoded file whose sample rate is zero makes the duration
    [waveform.shape[1] / sample_rate] raise: [split_audio] returns [False]
    with a division error reported, before the duration is printed and
    before any separation or write. *)
Theorem split_audio_zero_sample_rate (E : Env) (self : Self) (input_path : Path)
    (output_dir : option Path) (st : State E) (m : Model E)
    (w : list (list (sample E))) :
  is_supported_format self input_path = true ->
  os_exists E (fs st) input_path = Ok true ->
  self_model st = Some m ->
  torchaudio_load E (fs st) input_path = Ok (w, 0%Z) ->
  let r := split_audio E self input_path output_dir st in
  fst r = Ok false
  /\ trace (snd r)
     = trace st
       ++ [PathExists input_path; Print (MsgProcessing (name input_path));
           TorchaudioLoad input_path;
           Print (MsgProcessError (name input_path) ZeroDivisionError);
           LogError input_path ZeroDivisionError]
  /\ fs (snd r) = fs st.
Proof.
  intros Hfmt Hex Hm H1 r. subst r.
  destruct (split_audio E self input_path output_dir st) as [res st'] eqn:Hrun.
  revert Hrun. enter_split_audio Hfmt Hex Hm. unfold bind at 1. unfold ret at 1.
  unfold bind at 1.
  unfold load_audio, try_except, bind, call_torchaudio_load.
  cbn [self_model log fs]. rewrite H1.
  destruct (shape0 (float E w) =? 1); [| destruct (2 <? shape0 (float E w))];
    cbn; intros H; injection H as <- <-; cbn; rewrite <- !app_assoc;
    repeat split.
Qed.

Lemma split_audio_zero_sample_rate_witness :
  let p := mkPath "" ["music"; "a.mp3"] in
  let st := Faulty.loaded Faulty.env_zero_rate tt [] in
  let r := split_audio Faulty.env_zero_rate Demo.self p None st in
  fst r = Ok false
  /\ trace (snd r)
     = trace st
       ++ [PathExists p; Print (MsgProcessing (name p)); TorchaudioLoad p;
           Print (MsgProcessError (name p) ZeroDivisionError);
           LogError p ZeroDivisionError]
  /\ fs (snd r) = fs st.
Proof.
  apply (split_audio_zero_sample_rate Faulty.env_zero_rate Demo.self
           (mkPath "" ["music"; "a.mp3"]) None
           (Faulty.loaded Faulty.env_zero_rate tt []) tt Demo.stereo);
    reflexivity.
Defined.

(** ** [save_stems]: the calls it makes *)

Section SaveStems.
Context (E : Env).

Lemma length_zip_cons {A : Type} (xs : list A) (rows : list (list A)) :
  length (zip_cons xs rows) = Nat.min (length xs) (length rows).
Proof.
  revert rows. induction xs as [| x xs IH]; intros [| r rows]; simpl; try reflexivity.
  rewrite IH. reflexivity.
Qed.

(** The transpose of [c] channels of [n] samples has [n] rows. *)
Lemma length_transpose {A : Type} (n : nat) (t : list (list A)) :
  rectangular n t -> 1 <= shape0 t -> length (transpose t) = n.
Proof.
  unfold rectangular, shape0. induction t as [| row rest IH]; intros Hr Hlen;
    [simpl in Hlen; lia |].
  inversion Hr as [| ? ? Hrow Hrest]; subst.
  destruct rest as [| row2 rest].
  - simpl. apply length_map.
  - change (transpose (row :: row2 :: rest))
      with (zip_cons row (transpose (row2 :: rest))).
    rewrite length_zip_cons, IH; [apply Nat.min_id | exact Hrest | simpl; lia].
Qed.

(** One round of the loop on a stem the model returned: one write call
    and one console line that tells how it went. *)
Lemma save_one_trace (stems : list (list (list (sample E)))) (sr : Z)
    (out : Path) (base : string) (i : nat) (nm : string)
    (a : list (list (sample E))) (st : State E) :
  nth_error stems i = Some a ->
  exists ok msg st',
    save_one E stems sr out base (i, nm) st = (Ok tt, st')
    /\ trace st'
       = trace st ++ [SfWrite (stem_file out base (i, nm)) (length (transpose a))
                        sr "PCM_24" ok;
                      Print msg]
    /\ ((ok = true /\ msg = MsgSaved nm)
        \/ (ok = false /\ exists e, msg = MsgSaveError nm e)).
Proof.
  intros Hi. unfold save_one, bind at 1, getitem. rewrite Hi.
  unfold ret at 1. unfold try_except, bind, call_sf_write, stem_file,
    console_print, emit. cbn [snd].
  destruct (sf_write E (fs st) _ _ _ _) as [fs' [[] | e]]; cbn.
  - exists true, (MsgSaved nm). eexists. split; [reflexivity |].
    cbn. rewrite <- app_assoc. split; [reflexivity | left; split; reflexivity].
  - exists false, (MsgSaveError nm e). eexists. split; [reflexivity |].
    cbn. rewrite <- app_assoc. split; [reflexivity |].
    right. split; [reflexivity | exists e; reflexivity].
Qed.

Lemma for_each_save_trace (stems : list (list (list (sample E)))) (sr : Z)
    (out : Path) (base : string) (items : list (nat * string)) (st : State E) :
  Forall (fun item => fst item < length stems) items ->
  exists delta st',
    for_each E items (save_one E stems sr out base) st = (Ok tt, st')
    /\ trace st' = trace st ++ delta
    /\ write_calls delta
       = map (fun item => (stem_file out base item,
                           length (transpose (nth (fst item) stems [])),
                           sr, "PCM_24")) items
    /\ save_reports delta = combine (map snd items) (write_results delta)
    /\ mkdirs delta = [].
Proof.
  revert st. induction items as [| [i nm] rest IH]; intros st Hall.
  - exists [], st. cbn. rewrite app_nil_r. repeat split.
  - inversion Hall as [| ? ? Hi Hrest]; subst. cbn [fst] in Hi.
    destruct (nth_error stems i) as [a |] eqn:Ha;
      [| apply nth_error_None in Ha; lia].
    destruct (save_one_trace stems sr out base i nm a st Ha)
      as (ok & msg & st1 & Hrun & Htr & Hmsg).
    destruct (IH st1 Hrest) as (delta & st' & Hloop & Htr' & Hw & Hrep & Hmk).
    exists ([SfWrite (stem_file out base (i, nm)) (length (transpose a)) sr
               "PCM_24" ok; Print msg] ++ delta), st'.
    split; [cbn [for_each]; unfold bind; rewrite Hrun; exact Hloop |].
    split; [rewrite Htr', Htr, <- app_assoc; reflexivity |].
    unfold write_calls, save_reports, write_results, mkdirs in *.
    rewrite !flat_map_app. rewrite Hw, Hrep, Hmk.
    cbn [map fst snd]. rewrite (nth_error_nth _ _ [] Ha).
    destruct Hmsg as [[-> ->] | [-> [e ->]]]; cbn; repeat split.
Qed.

End SaveStems.

(** X9.  On an object as the constructor leaves it, with at least four
    sources of [n] samples per channel and a directory that can be made,
    [save_stems] returns normally whatever [sf.write] does.  It first makes
    the output directory, once; it then calls [sf.write] once per stem, in
    the order drums, bass, other, vocals, on [{base}_{stem}.wav] with [n]
    frames, the given sample rate and subtype [PCM_24]; and the console
    says Saved for exactly the stems whose write succeeded, Error for the
    others. *)
Theorem save_stems_calls (E : Env) (self : Self)
    (stems : list (list (list (sample E)))) (sample_rate : Z)
    (output_dir : Path) (filename_base : string) (st : State E) (n : nat) :
  constructed self ->
  4 <= length stems ->
  Forall (fun a => 1 <= shape0 a /\ rectangular n a) stems ->
  is_ok (snd (os_mkdir E (fs st) output_dir)) = true ->
  let r := save_stems E self stems sample_rate output_dir filename_base st in
  fst r = Ok tt
  /\ exists rest,
       trace (snd r) = trace st ++ Mkdir output_dir :: rest
       /\ mkdirs rest = []
       /\ write_calls rest
          = map (fun item => (stem_file output_dir filename_base item,
                              n, sample_rate, "PCM_24")) STEM_NAMES
       /\ save_reports rest
          = combine ["drums"; "bass"; "other"; "vocals"] (write_results rest).
Proof.
  intros [_ Hn] Hlen Hshape Hmk r. subst r.
  rewrite save_stems_unfold, Hn. unfold bind, mkdir.
  destruct (os_mkdir E (fs st) output_dir) as [fs' [[] | e]]; [| discriminate].
  cbn [fst snd].
  destruct (for_each_save_trace E stems sample_rate output_dir filename_base
              STEM_NAMES (with_fs E (log st (Mkdir output_dir)) fs'))
    as (delta & st' & Hloop & Htr & Hw & Hrep & Hmkd).
  { repeat constructor; cbn; lia. }
  rewrite Hloop. cbn [fst snd]. split; [reflexivity |].
  exists delta. split; [rewrite Htr; cbn; rewrite <- app_assoc; reflexivity |].
  split; [exact Hmkd |]. split; [| exact Hrep].
  rewrite Hw. apply map_ext_in. intros [i nm] Hin. cbn [fst].
  assert (Hi : i < length stems)
    by (cbn in Hin; intuition (match goal with H : (_, _) = (_, _) |- _ =>
                                 injection H as <- _ end; lia)).
  assert (Hnth : In (nth i stems []) stems) by (apply nth_In, Hi).
  rewrite Forall_forall in Hshape. destruct (Hshape _ Hnth) as [H1 Hrect].
  rewrite (length_transpose n _ Hrect H1). reflexivity.
Qed.

Lemma save_stems_calls_witness :
  let stems := [Demo.stereo; Demo.stereo; Demo.stereo; Demo.stereo] in
  let out := mkPath "" ["ro"] in
  let r := save_stems Demo.env Demo.self stems 44100%Z out "a" Demo.start in
  fst r = Ok tt
  /\ exists rest,
       trace (snd r) = trace Demo.start ++ Mkdir out :: rest
       /\ mkdirs rest = []
       /\ write_calls rest
          = map (fun item => (stem_file out "a" item, 3, 44100%Z, "PCM_24"))
              STEM_NAMES
       /\ save_reports rest
          = combine ["drums"; "bass"; "other"; "vocals"] (write_results rest).
Proof.
  apply (save_stems_calls Demo.env Demo.self
           [Demo.stereo; Demo.stereo; Demo.stereo; Demo.stereo] 44100%Z
           (mkPath "" ["ro"]) "a" Demo.start 3).
  - split; [apply Permutation_refl | reflexivity].
  - simpl. lia.
  - repeat constructor.
  - reflexivity.
Defined.

Section SaveStemsRaises.
Context (E : Env).

(** The loop stops with [IndexError] at the first stem the model did not
    return, the stems before it having been handed to [sf.write]. *)
Lemma for_each_save_short (stems : list (list (list (sample E)))) (sr : Z)
    (out : Path) (base : string) (items1 : list (nat * string))
    (item : nat * string) (items2 : list (nat * string)) (st : State E) :
  Forall (fun it => fst it < length stems) items1 ->
  length stems <= fst item ->
  let r := for_each E (items1 ++ item :: items2) (save_one E stems sr out base) st in
  fst r = Raise IndexError
  /\ W (snd r) = W st ++ map (stem_file out base) items1.
Proof.
  revert st. induction items1 as [| [i nm] rest IH]; intros st Hall Hitem.
  - destruct item as [j nm]. cbn [app for_each fst] in *.
    unfold bind, save_one, bind, getitem.
    destruct (nth_error stems j) eqn:Hj;
      [assert (j < length stems) by (apply nth_error_Some; congruence); lia |].
    cbn. rewrite app_nil_r. split; reflexivity.
  - inversion Hall as [| ? ? Hi Hrest]; subst. cbn [fst] in Hi.
    destruct (nth_error stems i) as [a |] eqn:Ha;
      [| apply nth_error_None in Ha; lia].
    destruct (save_one_trace E stems sr out base i nm a st Ha)
      as (ok & msg & st1 & Hrun & _ & _).
    destruct (save_one_run E stems sr out base (i, nm) st)
      as [(e & Hr & _) | [_ Hw]];
      [rewrite Hrun in Hr; discriminate |].
    rewrite Hrun in Hw. cbn [snd] in Hw.
    destruct (IH st1 Hrest Hitem) as [Hres Hws].
    cbn [app for_each]. unfold bind. rewrite Hrun.
    split; [exact Hres |].
    rewrite Hws, Hw, <- app_assoc. reflexivity.
Qed.

End SaveStemsRaises.

(** X10.  [save_stems] raises in two cases only: the output directory
    cannot be made, and then nothing is handed to [sf.write]; or the model
    returned fewer than four sources, and then it raises [IndexError] after
    it has handed to [sf.write] the stems that are there.  A failing write
    never makes it raise. *)
Theorem save_stems_raises_iff (E : Env) (self : Self)
    (stems : list (list (list (sample E)))) (sample_rate : Z)
    (output_dir : Path) (filename_base : string) (st : State E) :
  constructed self ->
  let r := save_stems E self stems sample_rate output_dir filename_base st in
  let made := is_ok (snd (os_mkdir E (fs st) output_dir)) in
  (is_ok (fst r) = false <-> made = false \/ length stems < 4)
  /\ (made = false ->
      fst r = snd (os_mkdir E (fs st) output_dir) /\ W (snd r) = W st)
  /\ (made = true -> length stems < 4 ->
      fst r = Raise IndexError
      /\ W (snd r)
         = W st ++ firstn (length stems) (stem_files output_dir filename_base)).
Proof.
  intros [_ Hn] r made. subst r made.
  rewrite save_stems_unfold, Hn. unfold bind, mkdir.
  destruct (os_mkdir E (fs st) output_dir) as [fs' [[] | e]]; cbn [fst snd is_ok].
  - set (st0 := with_fs E (log st (Mkdir output_dir)) fs').
    assert (H0 : W st0 = W st).
    { unfold W, st0. cbn. rewrite write_attempts_snoc. apply app_nil_r. }
    destruct (Nat.lt_ge_cases (length stems) 4) as [Hshort | Hlong].
    + assert (Hrun : fst (for_each E STEM_NAMES
                            (save_one E stems sample_rate output_dir filename_base) st0)
                     = Raise IndexError
                     /\ W (snd (for_each E STEM_NAMES
                                  (save_one E stems sample_rate output_dir
                                     filename_base) st0))
                        = W st0 ++ firstn (length stems)
                                     (stem_files output_dir filename_base)).
      { destruct stems as [| a [| b [| c [| d more]]]]; cbn [length] in *;
          try lia.
        - apply (for_each_save_short E [] sample_rate output_dir filename_base
                   [] (0, "drums") [(1, "bass"); (2, "other"); (3, "vocals")]);
            [constructor | cbn; lia].
        - apply (for_each_save_short E [a] sample_rate output_dir filename_base
                   [(0, "drums")] (1, "bass") [(2, "other"); (3, "vocals")]);
            [repeat constructor | cbn; lia].
        - apply (for_each_save_short E [a; b] sample_rate output_dir filename_base
                   [(0, "drums"); (1, "bass")] (2, "other") [(3, "vocals")]);
            [repeat constructor | cbn; lia].
        - apply (for_each_save_short E [a; b; c] sample_rate output_dir
                   filename_base
                   [(0, "drums"); (1, "bass"); (2, "other")] (3, "vocals") []);
            [repeat constructor; cbn; lia | cbn; lia]. }
      destruct Hrun as [Hres Hw]. rewrite Hres, Hw, H0. cbn [is_ok].
      split; [split; [intros _; right; exact Hshort | reflexivity] |].
      split; [discriminate | intros _ _; split; reflexivity].
    + destruct (for_each_save_trace E stems sample_rate output_dir filename_base
                  STEM_NAMES st0) as (delta & st' & Hloop & _).
      { repeat constructor; cbn; lia. }
      rewrite Hloop. cbn [fst snd is_ok].
      split; [split; [discriminate | intros [H | H]; [discriminate | lia]] |].
      split; [discriminate | intros _ H; lia].
  - split; [split; [intros _; left; reflexivity | reflexivity] |].
    split; [| discriminate].
    intros _. split; [reflexivity |].
    unfold W. cbn. rewrite write_attempts_snoc. apply app_nil_r.
Qed.

Lemma save_stems_raises_iff_witness :
  let stems := [Demo.stereo; Demo.stereo] in
  let out := mkPath "" ["out"] in
  let r := save_stems Demo.env Demo.self stems 44100%Z out "a" Demo.start in
  let made := is_ok (snd (os_mkdir Demo.env (fs Demo.start) out)) in
  (is_ok (fst r) = false <-> made = false \/ length stems < 4)
  /\ (made = false ->
      fst r = snd (os_mkdir Demo.env (fs Demo.start) out)
      /\ W (snd r) = W Demo.start)
  /\ (made = true -> length stems < 4 ->
      fst r = Raise IndexError
      /\ W (snd r) = W Demo.start ++ firstn (length stems) (stem_files out "a")).
Proof.
  apply (save_stems_raises_iff Demo.env Demo.self [Demo.stereo; Demo.stereo]
           44100%Z (mkPath "" ["out"]) "a" Demo.start).
  split; [apply Permutation_refl | reflexivity].
Defined.

(** ** [batch_split]: nothing to do *)

Lemma find_audio_files_trace (E : Env) (d : Path) (exts : list string)
    (acc : list Path) (st : State E) :
  trace (snd (find_audio_files E d exts acc st))
  = trace st
    ++ flat_map (fun ext => [Glob d ("*" ++ ext); Glob d ("*" ++ upper ext)]) exts.
Proof.
  revert acc st. induction exts as [| ext rest IH]; intros acc st.
  - cbn. symmetry. apply app_nil_r.
  - cbn [find_audio_files flat_map]. unfold bind at 1. unfold glob at 1.
    unfold bind at 1. unfold glob at 1. rewrite IH. cbn.
    rewrite <- !app_assoc. reflexivity.
Qed.

(** X11.  A batch with nothing to do returns 0.  On a directory that does
    not exist it only checks the path and says so.  On a directory where no
    entry matches it lists the directory twice per extension, with the
    patterns [*{ext}] and [*{EXT}], says that no audio file was found, and
    does nothing else: the file system and the model are as before. *)
Theorem batch_split_nothing_to_do (E : Env) (self : Self) (input_dir : Path)
    (output_dir : option Path) (st : State E) :
  (os_exists E (fs st) input_dir = Ok false ->
   batch_split E self input_dir output_dir st
   = (Ok 0, log (log st (PathExists input_dir)) (Print (MsgDirNotFound input_dir))))
  /\ (os_exists E (fs st) input_dir = Ok true ->
      audio_files_of E self input_dir st = [] ->
      let r := batch_split E self input_dir output_dir st in
      fst r = Ok 0
      /\ trace (snd r)
         = trace st
           ++ PathExists input_dir
              :: flat_map (fun ext => [Glob input_dir ("*" ++ ext);
                                       Glob input_dir ("*" ++ upper ext)])
                   (supported_formats self)
           ++ [Print MsgNoAudioFiles]
      /\ fs (snd r) = fs st
      /\ self_model (snd r) = self_model st).
Proof.
  split.
  - intros Hex. unfold batch_split. unfold bind at 1. unfold path_exists at 1.
    rewrite Hex. reflexivity.
  - intros Hex Hnone r. subst r. unfold audio_files_of in Hnone.
    rewrite Hex in Hnone.
    destruct (batch_split E self input_dir output_dir st) as [res st'] eqn:Hrun.
    revert Hrun.
    unfold batch_split. unfold bind at 1. unfold path_exists at 1.
    rewrite Hex. cbn [negb]. unfold bind at 1.
    pose proof (find_audio_files_trace E input_dir (supported_formats self) []
                  (log st (PathExists input_dir))) as Htr.
    destruct (find_audio_files_run E input_dir (supported_formats self) []
                (log st (PathExists input_dir))) as (st1 & Hfind & Hfs & Hm & _).
    rewrite Hfind in Htr |- *. cbn [snd] in Htr.
    change (fs (log st (PathExists input_dir))) with (fs st) in *.
    change (self_model (log st (PathExists input_dir))) with (self_model st) in *.
    rewrite Hnone. cbn. intros H. injection H as <- <-. cbn.
    rewrite Htr. cbn. rewrite <- !app_assoc.
    repeat split; assumption.
Qed.

Lemma batch_split_nothing_to_do_witness :
  let d := mkPath "" ["empty"] in
  batch_split Demo.env Demo.self (mkPath "" ["missing.mp3"]) None Demo.start
  = (Ok 0, log (log Demo.start (PathExists (mkPath "" ["missing.mp3"])))
             (Print (MsgDirNotFound (mkPath "" ["missing.mp3"]))))
  /\ (let r := batch_split Demo.env Demo.self d None Demo.start in
      fst r = Ok 0
      /\ trace (snd r)
         = trace Demo.start
           ++ PathExists d
              :: flat_map (fun ext => [Glob d ("*" ++ ext); Glob d ("*" ++ upper ext)])
                   (supported_formats Demo.self)
           ++ [Print MsgNoAudioFiles]
      /\ fs (snd r) = fs Demo.start
      /\ self_model (snd r) = self_model Demo.start).
Proof.
  split.
  - apply (batch_split_nothing_to_do Demo.env Demo.self (mkPath "" ["missing.mp3"])
             None Demo.start). reflexivity.
  - apply (batch_split_nothing_to_do Demo.env Demo.self (mkPath "" ["empty"])
             None Demo.start); reflexivity.
Defined.

(** ** What a batch enumerates, and the format gate *)

(** A name that ends with an extension [.rest] has it as its suffix, unless
    the name is the extension and nothing else. *)
Lemma suffix_or_bare (nm rest : string) :
  rfind rest "." = (-1)%Z -> rest <> "" ->
  ends_with nm (String "." rest) ->
  suffix_of_name nm = String "." rest \/ nm = String "." rest.
Proof.
  intros Hr Hne [pre ->]. destruct pre as [| c pre]; [right; reflexivity |].
  left. unfold suffix_of_name.
  rewrite (rfind_app_dot (String c pre) rest Hr).
  assert (Hlen : (0 < String.length rest)%nat)
    by (destruct rest; [contradiction | simpl; lia]).
  unfold len. rewrite length_app_string. cbn [String.length].
  replace ((0 <? Z.of_nat (S (String.length pre)))
           && (Z.of_nat (S (String.length pre))
               <? Z.of_nat (S (String.length pre) + S (String.length rest)) - 1))%Z
    with true
    by (symmetry; apply andb_true_iff; split; apply Z.ltb_lt; lia).
  unfold slice_from. rewrite Nat2Z.id.
  exact (drop_app (String c pre) (String "." rest)).
Qed.

Lemma patterns_lower (e : string) :
  In e (SUPPORTED_FORMATS ++ map upper SUPPORTED_FORMATS) ->
  In (lower e) SUPPORTED_FORMATS.
Proof.
  intros H. simpl in H.
  repeat (destruct H as [<- | H]; [vm_compute; tauto |]). destruct H.
Qed.

(** X12.  Every file that [find_audio_files] returns, and so every file a
    batch is run on, passes the format gate of [split_audio], with one
    exception: an entry whose whole name is an extension, as [.mp3] or
    [.WAV], is returned (the pattern's star matches the empty string) and
    then refused by the gate, its suffix being empty; it counts as a file
    that failed. *)
Theorem enumerated_files_and_the_gate (E : Env) (self : Self) (input_dir : Path)
    (st : State E) :
  constructed self ->
  exists files st0,
    find_audio_files E input_dir (supported_formats self) [] st = (Ok files, st0)
    /\ (forall f, In f files ->
          is_supported_format self f = true
          \/ In (name f) (SUPPORTED_FORMATS ++ map upper SUPPORTED_FORMATS))
    /\ (forall e, In e (SUPPORTED_FORMATS ++ map upper SUPPORTED_FORMATS) ->
          In e (os_scandir E (fs st) input_dir) ->
          In (joinpath input_dir e) files
          /\ forall out st1,
               split_audio E self (joinpath input_dir e) out st1
               = (Ok false, log st1 (Print (MsgUnsupported "")))).
Proof.
  intros Hc.
  destruct (find_audio_files_run E input_dir (supported_formats self) [] st)
    as (st0 & Hfind & _).
  change ([] ++ ?l) with l in Hfind.
  eexists _, st0. split; [exact Hfind |]. split.
  - intros f Hf.
    destruct (found_file_shape E self input_dir st st0 _ f Hc Hfind Hf)
      as (nm & -> & Hname & H1 & H2 & _ & (e & He & Hends) & _).
    rewrite Hname.
    destruct (patterns_shape e He) as (rest & -> & Hrest & Hrne).
    destruct (suffix_or_bare nm rest Hrest Hrne Hends) as [Hs | ->];
      [left | right; exact He].
    unfold is_supported_format, suffix.
    rewrite Hname, Hs. apply str_in_In.
    eapply Permutation_in; [exact (proj1 Hc) | apply patterns_lower, He].
  - intros e He Hdir.
    destruct (patterns_shape e He) as (rest & -> & Hrest & Hrne).
    assert (Hne : String "." rest <> "") by discriminate.
    assert (Hnd : String "." rest <> ".")
      by (intros H; injection H as H; contradiction).
    split.
    + apply in_map. unfold matched_names. apply in_flat_map.
      assert (Hends : ends_with (String "." rest) (String "." rest))
        by (exists ""; reflexivity).
      pose proof (proj2 (fnmatch_star _ _ (patterns_literal _ He)) Hends) as Hm.
      apply in_app_or in He as [He | He].
      * exists (String "." rest).
        split; [eapply Permutation_in; [exact (proj1 Hc) | exact He] |].
        apply in_or_app. left. apply filter_In. split; assumption.
      * apply in_map_iff in He as (ext & Heq & Hext).
        exists ext. split; [eapply Permutation_in; [exact (proj1 Hc) | exact Hext] |].
        apply in_or_app. right. apply filter_In. rewrite Heq. split; assumption.
    + intros out st1. unfold split_audio.
      assert (Hsfx : suffix (joinpath input_dir (String "." rest)) = "").
      { unfold suffix. rewrite (name_joinpath _ _ Hne Hnd). unfold suffix_of_name.
        change (String "." rest) with ("" ++ String "." rest)%string.
        rewrite (rfind_app_dot "" rest Hrest). reflexivity. }
      assert (Hgate : is_supported_format self (joinpath input_dir (String "." rest))
                      = false).
      { unfold is_supported_format. rewrite Hsfx.
        destruct (str_in (lower "") (supported_formats self)) eqn:Hin;
          [| reflexivity].
        apply str_in_In in Hin.
        apply (Permutation_in _ (Permutation_sym (proj1 Hc))) in Hin.
        simpl in Hin. intuition discriminate. }
      rewrite Hgate, Hsfx. reflexivity.
Qed.

Lemma enumerated_files_and_the_gate_witness :
  let E := Faulty.env_album in
  let st := Faulty.fresh E [] in
  exists files st0,
    find_audio_files E Faulty.album (supported_formats Demo.self) [] st
    = (Ok files, st0)
    /\ files = [joinpath Faulty.album ".mp3"; joinpath Faulty.album "song.mp3";
                joinpath Faulty.album "song.wav"]
    /\ is_supported_format Demo.self (joinpath Faulty.album ".mp3") = false
    /\ (forall out st1,
          split_audio E Demo.self (joinpath Faulty.album ".mp3") out st1
          = (Ok false, log st1 (Print (MsgUnsupported ""))))
    /\ fst (batch_split E Demo.self Faulty.album None st) = Ok 2.
Proof.
  destruct (enumerated_files_and_the_gate Faulty.env_album Demo.self Faulty.album
              (Faulty.fresh Faulty.env_album [])
              (conj (Permutation_refl _) eq_refl))
    as (files & st0 & Hfind & _ & Hbare).
  exists files, st0. split; [exact Hfind |].
  split; [vm_compute in Hfind; injection Hfind as <- _; reflexivity |].
  split; [reflexivity |].
  split; [apply (Hbare ".mp3"); simpl; tauto | vm_compute; reflexivity].
Defined.

(** ** No file twice, and two files for one output *)

(** X13.  When the directory listing names no entry twice,
    [find_audio_files] returns no file twice, and no more files than the
    directory has entries: every entry is processed at most once.  (The two
    patterns of an extension are told apart by case, as [Path.glob] does on
    a case-sensitive file system.) *)
Theorem find_audio_files_NoDup (E : Env) (self : Self) (input_dir : Path)
    (st : State E) :
  constructed self ->
  NoDup (os_scandir E (fs st) input_dir) ->
  exists files st0,
    find_audio_files E input_dir (supported_formats self) [] st = (Ok files, st0)
    /\ NoDup files
    /\ length files <= length (os_scandir E (fs st) input_dir).
Proof.
  intros Hc Hnd.
  destruct (find_audio_files_run E input_dir (supported_formats self) [] st)
    as (st0 & Hfind & _).
  change ([] ++ ?l) with l in Hfind.
  eexists _, st0. split; [exact Hfind |].
  pose proof (matched_names_NoDup (supported_formats self)
                (os_scandir E (fs st) input_dir) (proj1 Hc) Hnd) as Hm.
  split.
  - apply NoDup_map_NoDup_ForallPairs; [| exact Hm].
    intros a b Ha Hb Heq.
    destruct (matched_name_shape _ _ _ (proj1 Hc) Ha) as (Ha1 & Ha2 & _).
    destruct (matched_name_shape _ _ _ (proj1 Hc) Hb) as (Hb1 & Hb2 & _).
    rewrite <- (name_joinpath input_dir a Ha1 Ha2),
            <- (name_joinpath input_dir b Hb1 Hb2), Heq.
    reflexivity.
  - rewrite length_map. apply NoDup_incl_length; [exact Hm |].
    apply matched_names_incl.
Qed.

Lemma find_audio_files_NoDup_witness :
  exists files st0,
    find_audio_files Demo.env Demo.music (supported_formats Demo.self) [] Demo.start
    = (Ok files, st0)
    /\ NoDup files
    /\ length files <= length (os_scandir Demo.env (fs Demo.start) Demo.music).
Proof.
  apply (find_audio_files_NoDup Demo.env Demo.self Demo.music Demo.start).
  - split; [apply Permutation_refl | reflexivity].
  - apply demo_entries_NoDup.
Defined.



(** ** The model across calls *)

Section Steady.
Context {E : Env}.

Lemma get_model_calls_snoc (tr : list event) (ev : event) :
  get_model_calls (tr ++ [ev])
  = get_model_calls tr ++ match ev with GetModel nm => [nm] | _ => [] end.
Proof.
  unfold get_model_calls. rewrite flat_map_app. simpl. rewrite app_nil_r.
  reflexivity.
Qed.

Lemma steady_ret {A : Type} (a : A) : steady (ret E a).
Proof. intros st. split; reflexivity. Qed.

Lemma steady_raise {A : Type} (e : exn) : steady (@raise E A e).
Proof. intros st. split; reflexivity. Qed.

Lemma steady_bind {A B : Type} (m : M E A) (k : A -> M E B) :
  steady m -> (forall a, steady (k a)) -> steady (bind E m k).
Proof.
  intros Hm Hk st. unfold bind. specialize (Hm st).
  destruct (m st) as [[a | e] st1]; simpl in *.
  - destruct (Hk a st1) as [H1 H2]. destruct Hm as [H3 H4].
    rewrite H1, H2. split; assumption.
  - exact Hm.
Qed.

Lemma steady_try_except {A : Type} (m : M E A) (h : exn -> M E A) :
  steady m -> (forall e, steady (h e)) -> steady (try_except E m h).
Proof.
  intros Hm Hh st. unfold try_except. specialize (Hm st).
  destruct (m st) as [[a | e] st1]; simpl in *.
  - exact Hm.
  - destruct (Hh e st1) as [H1 H2]. destruct Hm as [H3 H4].
    rewrite H1, H2. split; assumption.
Qed.

Lemma steady_emit (ev : event) :
  match ev with GetModel _ => False | _ => True end -> steady (emit E ev).
Proof.
  intros H st. unfold emit. simpl. rewrite get_model_calls_snoc.
  destruct ev; try contradiction; rewrite app_nil_r; split; reflexivity.
Qed.

Lemma steady_console_print (m : message) : steady (console_print E m).
Proof. apply steady_emit. exact I. Qed.

Lemma steady_get_self_model : steady (get_self_model E).
Proof. intros st. split; reflexivity. Qed.

Lemma steady_getitem {A : Type} (xs : list A) (i : nat) : steady (getitem E xs i).
Proof.
  unfold getitem. destruct (nth_error xs i); [apply steady_ret | apply steady_raise].
Qed.

Lemma steady_true_div (a : nat) (b : Z) : steady (true_div E a b).
Proof.
  unfold true_div. destruct (b =? 0)%Z; [apply steady_raise | apply steady_ret].
Qed.

Lemma steady_path_exists (p : Path) : steady (path_exists E p).
Proof.
  intros st. simpl. rewrite get_model_calls_snoc, app_nil_r. split; reflexivity.
Qed.

Lemma steady_glob (d : Path) (pat : string) : steady (glob E d pat).
Proof.
  intros st. simpl. rewrite get_model_calls_snoc, app_nil_r. split; reflexivity.
Qed.

Lemma steady_mkdir (p : Path) : steady (mkdir E p).
Proof.
  intros st. unfold mkdir. destruct (os_mkdir E (fs st) p). simpl.
  rewrite get_model_calls_snoc, app_nil_r. split; reflexivity.
Qed.

Lemma steady_call_tensor_to (t : list (list (sample E))) (dev : string) :
  steady (call_tensor_to E t dev).
Proof.
  intros st. simpl. rewrite get_model_calls_snoc, app_nil_r. split; reflexivity.
Qed.

Lemma steady_call_torchaudio_load (p : Path) : steady (call_torchaudio_load E p).
Proof.
  intros st. simpl. rewrite get_model_calls_snoc, app_nil_r. split; reflexivity.
Qed.

Lemma steady_call_librosa_load (p : Path) : steady (call_librosa_load E p).
Proof.
  intros st. simpl. rewrite get_model_calls_snoc, app_nil_r. split; reflexivity.
Qed.

Lemma steady_call_apply_model (m : Model E) (mix : list (list (list (sample E))))
    (dev : string) : steady (call_apply_model E m mix dev).
Proof.
  intros st. simpl. rewrite get_model_calls_snoc, app_nil_r. split; reflexivity.
Qed.

Lemma steady_call_sf_write (p : Path) (data : list (list (sample E))) (sr : Z)
    (subtype : string) : steady (call_sf_write E p data sr subtype).
Proof.
  intros st. unfold call_sf_write. destruct (sf_write E (fs st) p data sr subtype).
  simpl. rewrite get_model_calls_snoc, app_nil_r. split; reflexivity.
Qed.

Lemma steady_for_each {A : Type} (xs : list A) (body : A -> M E unit) :
  (forall x, steady (body x)) -> steady (for_each E xs body).
Proof.
  intros Hb. induction xs as [| x xs IH]; simpl.
  - apply steady_ret.
  - apply steady_bind; [apply Hb | intros _; exact IH].
Qed.

End Steady.

Create HintDb steady.

#[local] Hint Resolve steady_ret steady_raise steady_console_print
  steady_get_self_model steady_getitem steady_true_div steady_path_exists
  steady_glob steady_mkdir steady_call_tensor_to steady_call_torchaudio_load
  steady_call_librosa_load steady_call_apply_model steady_call_sf_write : steady.

Ltac steady_tac :=
  repeat first
    [ apply steady_bind; [| intro]
    | apply steady_try_except; [| intro]
    | apply steady_for_each; intro
    | apply steady_emit; exact I
    | solve [auto with steady]
    | match goal with
      | |- steady (match ?x with _ => _ end) => destruct x
      | |- steady (let (_, _) := ?x in _) => destruct x
      end ].

Lemma steady_load_audio (E : Env) (p : Path) : steady (load_audio E p).
Proof. unfold load_audio. steady_tac. Qed.

Lemma steady_save_stems (E : Env) (self : Self)
    (stems : list (list (list (sample E)))) (sr : Z) (out : Path) (base : string) :
  steady (save_stems E self stems sr out base).
Proof. unfold save_stems. steady_tac. Qed.

(** A state relation that holds between states of the same model and the
    same [get_model] calls, and composes, holds across [split_audio] and
    [batch_split] as soon as it holds across [load_model]. *)
Section Relation.
Context {E : Env} (R : State E -> State E -> Prop).
Hypothesis R_steady :
  forall st st' : State E,
    self_model st' = self_model st ->
    get_model_calls (trace st') = get_model_calls (trace st) -> R st st'.
Hypothesis R_trans : forall st1 st2 st3 : State E, R st1 st2 -> R st2 st3 -> R st1 st3.

Lemma ends_in_steady {A : Type} (c : M E A) : steady c -> ends_in R c.
Proof. intros H st. destruct (H st). apply R_steady; assumption. Qed.

Lemma ends_in_bind {A B : Type} (m : M E A) (k : A -> M E B) :
  ends_in R m -> (forall a, ends_in R (k a)) -> ends_in R (bind E m k).
Proof.
  intros Hm Hk st. unfold bind. specialize (Hm st).
  destruct (m st) as [[a | e] st1]; simpl in *.
  - eapply R_trans; [exact Hm | apply Hk].
  - exact Hm.
Qed.

Lemma ends_in_try_except {A : Type} (m : M E A) (h : exn -> M E A) :
  ends_in R m -> (forall e, ends_in R (h e)) -> ends_in R (try_except E m h).
Proof.
  intros Hm Hh st. unfold try_except. specialize (Hm st).
  destruct (m st) as [[a | e] st1]; simpl in *.
  - exact Hm.
  - eapply R_trans; [exact Hm | apply Hh].
Qed.

Variable self : Self.
Hypothesis R_load_model : ends_in R (load_model E self).

Ltac by_steady := apply ends_in_steady; steady_tac.

Lemma ends_in_split_audio (p : Path) (out : option Path) :
  ends_in R (split_audio E self p out).
Proof.
  unfold split_audio.
  destruct (negb (is_supported_format self p)); [by_steady |].
  apply ends_in_bind; [by_steady | intros found].
  destruct (negb found); [by_steady |].
  apply ends_in_bind; [by_steady | intros _].
  apply ends_in_try_except; [| intros e; by_steady].
  apply ends_in_bind; [by_steady | intros m].
  apply ends_in_bind; [destruct m; [by_steady | exact R_load_model] | intros _].
  apply ends_in_bind; [apply ends_in_steady, steady_load_audio | intros [w sr]].
  apply ends_in_bind; [by_steady | intros _].
  apply ends_in_bind; [by_steady | intros _].
  apply ends_in_bind; [by_steady | intros w'].
  apply ends_in_bind; [by_steady | intros m'].
  apply ends_in_bind; [destruct m'; by_steady | intros o].
  apply ends_in_bind; [by_steady | intros stems].
  apply ends_in_bind; [by_steady | intros _].
  apply ends_in_bind; [apply ends_in_steady, steady_save_stems | intros _].
  by_steady.
Qed.

Lemma ends_in_find_audio_files (d : Path) (exts : list string) (acc : list Path) :
  ends_in R (find_audio_files E d exts acc).
Proof.
  apply ends_in_steady. revert acc.
  induction exts as [| ext rest IH]; intros acc; simpl.
  - apply steady_ret.
  - apply steady_bind; [apply steady_glob | intros lo].
    apply steady_bind; [apply steady_glob | intros up]. apply IH.
Qed.

Lemma ends_in_batch_loop (out : Path) (total : nat) (files : list Path)
    (i n : nat) :
  ends_in R (batch_loop E self out total files i n).
Proof.
  revert i n. induction files as [| f rest IH]; intros i n; simpl.
  - by_steady.
  - apply ends_in_bind; [by_steady | intros _].
    apply ends_in_bind; [apply ends_in_split_audio | intros ok]. apply IH.
Qed.

Lemma ends_in_batch_split (d : Path) (out : option Path) :
  ends_in R (batch_split E self d out).
Proof.
  unfold batch_split.
  apply ends_in_bind; [by_steady | intros found].
  destruct (negb found); [by_steady |].
  apply ends_in_bind; [apply ends_in_find_audio_files | intros files].
  destruct files as [| f files]; [by_steady |].
  apply ends_in_bind; [by_steady | intros _].
  apply ends_in_bind; [apply ends_in_batch_loop | intros n].
  by_steady.
Qed.

End Relation.

Lemma model_kept_trans (E : Env) (st1 st2 st3 : State E) :
  model_kept st1 st2 -> model_kept st2 st3 -> model_kept st1 st3.
Proof.
  unfold model_kept. intros H12 H23 H1.
  destruct (H12 H1) as [Hm Hc]. rewrite <- Hm in H1.
  destruct (H23 H1) as [Hm' Hc']. rewrite Hm', Hc'. split; assumption.
Qed.

Lemma load_model_kept (E : Env) (self : Self) :
  ends_in model_kept (load_model E self).
Proof.
  intros st Hm. unfold load_model, bind, get_self_model.
  destruct (self_model st) eqn:Hs; [| contradiction].
  cbn. rewrite Hs. split; reflexivity.
Qed.

(** X15.  A model that is loaded is used again: on an object that holds a
    model, [split_audio] and [batch_split] never call [get_model], and the
    object holds the same model afterwards, whatever the outcome of the
    run. *)
Theorem loaded_model_is_reused (E : Env) (self : Self) (mdl : Model E)
    (st : State E) :
  self_model st = Some mdl ->
  (forall input_path output_dir,
     let r := split_audio E self input_path output_dir st in
     self_model (snd r) = Some mdl
     /\ get_model_calls (trace (snd r)) = get_model_calls (trace st))
  /\ (forall input_dir output_dir,
        let r := batch_split E self input_dir output_dir st in
        self_model (snd r) = Some mdl
        /\ get_model_calls (trace (snd r)) = get_model_calls (trace st)).
Proof.
  intros Hm.
  assert (Hst : self_model st <> None) by (rewrite Hm; discriminate).
  assert (Hsteady : forall s s' : State E,
             self_model s' = self_model s ->
             get_model_calls (trace s') = get_model_calls (trace s) ->
             model_kept s s') by (intros s s' H1 H2 _; split; assumption).
  split.
  - intros p out r. subst r. rewrite <- Hm.
    apply (ends_in_split_audio model_kept Hsteady (model_kept_trans E) self
             (load_model_kept E self) p out st Hst).
  - intros d out r. subst r. rewrite <- Hm.
    apply (ends_in_batch_split model_kept Hsteady (model_kept_trans E) self
             (load_model_kept E self) d out st Hst).
Qed.

Lemma loaded_model_is_reused_witness :
  let st := Faulty.loaded Demo.env tt [] in
  (forall input_path output_dir,
     let r := split_audio Demo.env Demo.self input_path output_dir st in
     self_model (snd r) = Some tt
     /\ get_model_calls (trace (snd r)) = get_model_calls (trace st))
  /\ (forall input_dir output_dir,
        let r := batch_split Demo.env Demo.self input_dir output_dir st in
        self_model (snd r) = Some tt
        /\ get_model_calls (trace (snd r)) = get_model_calls (trace st)).
Proof.
  apply (loaded_model_is_reused Demo.env Demo.self tt (Faulty.loaded Demo.env tt [])).
  reflexivity.
Defined.

Lemma model_loaded_once_trans (E : Env) (nm : string) (st1 st2 st3 : State E) :
  model_loaded_once nm st1 st2 -> model_loaded_once nm st2 st3 ->
  model_loaded_once nm st1 st3.
Proof.
  unfold model_loaded_once.
  intros [[Hm Hc] | (Hn & Hs & Hc)] [[Hm' Hc'] | (Hn' & Hs' & Hc')].
  - left. rewrite Hm', Hc'. split; assumption.
  - right. rewrite Hn' in Hm. rewrite Hc', Hc. repeat split; auto.
  - right. rewrite Hm', Hc', Hc. repeat split; auto.
  - contradiction.
Qed.

Lemma load_model_loaded_once (E : Env) (self : Self) :
  (forall files, is_ok (snd (get_model E files (model_name self))) = true) ->
  ends_in (model_loaded_once (model_name self)) (load_model E self).
Proof.
  intros Hget st. unfold load_model, bind at 1, get_self_model.
  destruct (self_model st) eqn:Hs.
  - left. split; reflexivity.
  - right. split; [exact Hs |].
    unfold try_except, bind, call_get_model, set_self_model, call_module_to,
      console_print, emit, raise.
    pose proof (Hget (fs st)) as Hok.
    destruct (get_model E (fs st) (model_name self)) as [fs' [mdl | e]];
      [| discriminate].
    cbn. destruct (module_to E mdl (device self)) as [mdl' | e]; cbn;
      rewrite ?get_model_calls_snoc, ?app_nil_r; cbn;
      rewrite ?get_model_calls_snoc, ?app_nil_r; cbn;
      rewrite ?get_model_calls_snoc, ?app_nil_r; (split; [discriminate |]);
      reflexivity.
Qed.

(** X16.  When [get_model] can provide the model of the object, a whole
    batch calls it at most once, however many files there are: either the
    model is as it was and [get_model] was not called, or the object had no
    model, [get_model] was called once, and the object holds a model at
    the end. *)
Theorem batch_split_loads_model_once (E : Env) (self : Self) (input_dir : Path)
    (output_dir : option Path) (st : State E) :
  (forall files, is_ok (snd (get_model E files (model_name self))) = true) ->
  let r := batch_split E self input_dir output_dir st in
  (self_model (snd r) = self_model st
   /\ get_model_calls (trace (snd r)) = get_model_calls (trace st))
  \/ (self_model st = None
      /\ self_model (snd r) <> None
      /\ get_model_calls (trace (snd r))
         = get_model_calls (trace st) ++ [model_name self]).
Proof.
  intros Hget r. subst r.
  apply (ends_in_batch_split (model_loaded_once (model_name self))).
  - intros s s' H1 H2. left. split; assumption.
  - apply model_loaded_once_trans.
  - apply load_model_loaded_once, Hget.
Qed.

Lemma batch_split_loads_model_once_witness :
  let r := batch_split Demo.env Demo.self Demo.music None Demo.start in
  (self_model (snd r) = self_model Demo.start
   /\ get_model_calls (trace (snd r)) = get_model_calls (trace Demo.start))
  \/ (self_model Demo.start = None
      /\ self_model (snd r) <> None
      /\ get_model_calls (trace (snd r))
         = get_model_calls (trace Demo.start) ++ [model_name Demo.self]).
Proof.
  apply (batch_split_loads_model_once Demo.env Demo.self Demo.music None Demo.start).
  intros files. reflexivity.
Defined.

(** ** [split_audio]: from the decoded file to the stems *)

Section Separation.
Context (E : Env).

(** A stereo file that [torchaudio] reads is returned as it is. *)
Lemma load_audio_stereo_run (p : Path) (st : State E)
    (w : list (list (sample E))) (sr : Z) :
  torchaudio_load E (fs st) p = Ok (w, sr) ->
  shape0 w = 2 ->
  load_audio E p st = (Ok (float E w, sr), log st (TorchaudioLoad p)).
Proof.
  intros Hload Hch.
  unfold load_audio, try_except, bind, call_torchaudio_load. rewrite Hload.
  rewrite shape0_float, Hch. reflexivity.
Qed.

(** The run of [split_audio] on a stereo file, with a model loaded, a
    decoder, a device and a model that work: what is left is the outcome of
    [save_stems]. *)
Lemma split_audio_to_save (self : Self) (p : Path) (out : option Path)
    (st : State E) (m : Model E) (w w' : list (list (sample E))) (sr : Z)
    (stems : list (list (list (sample E)))) (more : list (list (list (list (sample E))))) :
  is_supported_format self p = true ->
  os_exists E (fs st) p = Ok true ->
  self_model st = Some m ->
  torchaudio_load E (fs st) p = Ok (w, sr) ->
  shape0 w = 2 ->
  sr <> 0%Z ->
  tensor_to E (float E w) (device self) = Ok w' ->
  apply_model E m [w'] (device self) = Ok (stems :: more) ->
  let out' := match out with
              | None => joinpath (parent p) (stem p ++ "_stems")%string
              | Some d => d
              end in
  let sta := mkState (Some m) (fs st)
               (trace st ++ [PathExists p; Print (MsgProcessing (name p));
                             TorchaudioLoad p;
                             Print (MsgDuration (shape1 (float E w)) sr);
                             TensorTo (device self); ApplyModel (device self);
                             Print MsgSavingStems]) in
  split_audio E self p out st
  = match save_stems E self stems sr out' (stem p) sta with
    | (Ok _, stb) =>
        (Ok true, log (log stb (Print (MsgSuccess out'))) (Print MsgReady))
    | (Raise e, stb) =>
        (Ok false, log (log stb (Print (MsgProcessError (name p) e))) (LogError p e))
    end.
Proof.
  intros Hfmt Hex Hm Hload Hch Hsr Hto Happ out' sta.
  enter_split_audio Hfmt Hex Hm. unfold bind at 1. unfold ret at 1.
  unfold bind at 1.
  rewrite (load_audio_stereo_run p _ w sr); [| exact Hload | exact Hch].
  unfold bind at 1, true_div at 1.
  destruct (sr =? 0)%Z eqn:Hz; [apply Z.eqb_eq in Hz; contradiction |].
  unfold ret at 1.
  unfold bind at 1, console_print at 1, emit at 1.
  unfold bind at 1, call_tensor_to at 1. rewrite Hto.
  unfold bind at 1, get_self_model at 1. cbn [self_model log]. rewrite Hm.
  unfold bind at 1, call_apply_model at 1. rewrite Happ.
  unfold bind at 1, getitem at 1. cbn [nth_error]. unfold ret at 1.
  unfold bind at 1, console_print at 1, emit at 1.
  fold out'.
  unfold bind at 1.
  match goal with
  | |- context [save_stems E self stems sr out' (stem p) ?s] =>
      replace s with sta
  end.
  2:{ unfold sta, log. cbn. rewrite Hm, <- !app_assoc. reflexivity. }
  destruct (save_stems E self stems sr out' (stem p) sta) as [[[] | e] stb].
  - reflexivity.
  - reflexivity.
Qed.

End Separation.

(** X17.  The run of [split_audio] that works, on a stereo file with a
    model loaded: the file is decoded once by [torchaudio], the waveform is
    moved to the device, the model is applied once, and only then is the
    output directory made and the four stems written, in the order drums,
    bass, other, vocals, each with the sample rate the decoder reported and
    subtype [PCM_24]; the run returns [True] whether the writes worked or
    not. *)
Theorem split_audio_order_of_calls (E : Env) (self : Self) (input_path : Path)
    (output_dir : Path) (st : State E) (m : Model E)
    (w w' : list (list (sample E))) (sr : Z)
    (stems : list (list (list (sample E))))
    (more : list (list (list (list (sample E))))) (n : nat) :
  constructed self ->
  is_supported_format self input_path = true ->
  os_exists E (fs st) input_path = Ok true ->
  self_model st = Some m ->
  torchaudio_load E (fs st) input_path = Ok (w, sr) ->
  shape0 w = 2 ->
  sr <> 0%Z ->
  tensor_to E (float E w) (device self) = Ok w' ->
  apply_model E m [w'] (device self) = Ok (stems :: more) ->
  4 <= length stems ->
  Forall (fun a => 1 <= shape0 a /\ rectangular n a) stems ->
  is_ok (snd (os_mkdir E (fs st) output_dir)) = true ->
  let r := split_audio E self input_path (Some output_dir) st in
  fst r = Ok true
  /\ exists rest,
       trace (snd r)
       = trace st
         ++ [PathExists input_path; Print (MsgProcessing (name input_path));
             TorchaudioLoad input_path;
             Print (MsgDuration (shape1 (float E w)) sr);
             TensorTo (device self); ApplyModel (device self);
             Print MsgSavingStems; Mkdir output_dir]
         ++ rest ++ [Print (MsgSuccess output_dir); Print MsgReady]
       /\ mkdirs rest = []
       /\ write_calls rest
          = map (fun item => (stem_file output_dir (stem input_path) item,
                              n, sr, "PCM_24")) STEM_NAMES.
Proof.
  intros [_ Hn] Hfmt Hex Hm Hload Hch Hsr Hto Happ Hlen Hshape Hmk r. subst r.
  rewrite (split_audio_to_save E self input_path (Some output_dir) st m w w' sr
             stems more Hfmt Hex Hm Hload Hch Hsr Hto Happ).
  rewrite save_stems_unfold, Hn. unfold bind, mkdir. cbn [fs].
  destruct (os_mkdir E (fs st) output_dir) as [fs' [[] | e]]; [| discriminate].
  match goal with
  | |- context [for_each E STEM_NAMES ?body ?s] =>
      destruct (for_each_save_trace E stems sr output_dir (stem input_path)
                  STEM_NAMES s)
        as (delta & st' & Hloop & Htr & Hw & _ & Hmkd);
        [repeat constructor; cbn; lia |]
  end.
  rewrite Hloop. cbn [fst snd]. split; [reflexivity |].
  exists delta. split; [| split; [exact Hmkd |]].
  - cbn. rewrite Htr. cbn. rewrite <- !app_assoc. reflexivity.
  - rewrite Hw. apply map_ext_in. intros [i nm] Hin. cbn [fst].
    assert (Hi : i < length stems)
      by (cbn in Hin; intuition (match goal with H : (_, _) = (_, _) |- _ =>
                                   injection H as <- _ end; lia)).
    assert (Hnth : In (nth i stems []) stems) by (apply nth_In, Hi).
    rewrite Forall_forall in Hshape. destruct (Hshape _ Hnth) as [H1 Hrect].
    rewrite (length_transpose n _ Hrect H1). reflexivity.
Qed.

Lemma split_audio_order_of_calls_witness :
  let p := mkPath "" ["music"; "a.mp3"] in
  let out := mkPath "" ["out"] in
  let st := Faulty.loaded Demo.env tt [] in
  let r := split_audio Demo.env Demo.self p (Some out) st in
  fst r = Ok true
  /\ exists rest,
       trace (snd r)
       = trace st
         ++ [PathExists p; Print (MsgProcessing (name p)); TorchaudioLoad p;
             Print (MsgDuration (shape1 (float Demo.env Demo.stereo)) 44100%Z);
             TensorTo (device Demo.self); ApplyModel (device Demo.self);
             Print MsgSavingStems; Mkdir out]
         ++ rest ++ [Print (MsgSuccess out); Print MsgReady]
       /\ mkdirs rest = []
       /\ write_calls rest
          = map (fun item => (stem_file out (stem p) item, 3, 44100%Z, "PCM_24"))
              STEM_NAMES.
Proof.
  apply (split_audio_order_of_calls Demo.env Demo.self
           (mkPath "" ["music"; "a.mp3"]) (mkPath "" ["out"])
           (Faulty.loaded Demo.env tt []) tt Demo.stereo Demo.stereo 44100%Z
           [Demo.stereo; Demo.stereo; Demo.stereo; Demo.stereo] [] 3).
  - split; [apply Permutation_refl | reflexivity].
  - reflexivity.
  - reflexivity.
  - reflexivity.
  - reflexivity.
  - reflexivity.
  - discriminate.
  - reflexivity.
  - reflexivity.
  - simpl. lia.
  - repeat constructor.
  - reflexivity.
Defined.

(** X18.  The output directory is made only after the separation is done:
    when it cannot be made, the file has been decoded and the model applied
    all the same, [split_audio] returns [False] with [mkdir]'s error
    reported, and [sf.write] is never called. *)
Theorem split_audio_mkdir_failure (E : Env) (self : Self) (input_path : Path)
    (output_dir : Path) (st : State E) (m : Model E)
    (w w' : list (list (sample E))) (sr : Z)
    (stems : list (list (list (sample E))))
    (more : list (list (list (list (sample E))))) (files : FS E) (e : exn) :
  is_supported_format self input_path = true ->
  os_exists E (fs st) input_path = Ok true ->
  self_model st = Some m ->
  torchaudio_load E (fs st) input_path = Ok (w, sr) ->
  shape0 w = 2 ->
  sr <> 0%Z ->
  tensor_to E (float E w) (device self) = Ok w' ->
  apply_model E m [w'] (device self) = Ok (stems :: more) ->
  os_mkdir E (fs st) output_dir = (files, Raise e) ->
  let r := split_audio E self input_path (Some output_dir) st in
  fst r = Ok false
  /\ trace (snd r)
     = trace st
       ++ [PathExists input_path; Print (MsgProcessing (name input_path));
           TorchaudioLoad input_path;
           Print (MsgDuration (shape1 (float E w)) sr);
           TensorTo (device self); ApplyModel (device self);
           Print MsgSavingStems; Mkdir output_dir;
           Print (MsgProcessError (name input_path) e);
           LogError input_path e].
Proof.
  intros Hfmt Hex Hm Hload Hch Hsr Hto Happ Hmk r. subst r.
  rewrite (split_audio_to_save E self input_path (Some output_dir) st m w w' sr
             stems more Hfmt Hex Hm Hload Hch Hsr Hto Happ).
  rewrite save_stems_unfold. unfold bind, mkdir. cbn [fs]. rewrite Hmk.
  cbn. rewrite <- !app_assoc. split; reflexivity.
Qed.

Lemma split_audio_mkdir_failure_witness :
  let p := mkPath "" ["music"; "a.mp3"] in
  let out := mkPath "" ["out"] in
  let e := LibraryError "mkdir" in
  let st := Faulty.loaded Faulty.env_no_mkdir tt [] in
  let r := split_audio Faulty.env_no_mkdir Demo.self p (Some out) st in
  fst r = Ok false
  /\ trace (snd r)
     = trace st
       ++ [PathExists p; Print (MsgProcessing (name p)); TorchaudioLoad p;
           Print (MsgDuration (shape1 (float Faulty.env_no_mkdir Demo.stereo)) 44100%Z);
           TensorTo (device Demo.self); ApplyModel (device Demo.self);
           Print MsgSavingStems; Mkdir out;
           Print (MsgProcessError (name p) e); LogError p e].
Proof.
  apply (split_audio_mkdir_failure Faulty.env_no_mkdir Demo.self
           (mkPath "" ["music"; "a.mp3"]) (mkPath "" ["out"])
           (Faulty.loaded Faulty.env_no_mkdir tt []) tt Demo.stereo Demo.stereo
           44100%Z [Demo.stereo; Demo.stereo; Demo.stereo; Demo.stereo] [] []
           (LibraryError "mkdir"));
    try reflexivity. discriminate.
Defined.

(** [save_stems] on fewer than four sources. *)
Lemma save_stems_short (E : Env) (self : Self)
    (stems : list (list (list (sample E)))) (sr : Z) (out : Path)
    (base : string) (st : State E) :
  stem_names self = STEM_NAMES ->
  is_ok (snd (os_mkdir E (fs st) out)) = true ->
  length stems < 4 ->
  let r := save_stems E self stems sr out base st in
  fst r = Raise IndexError
  /\ W (snd r) = W st ++ firstn (length stems) (stem_files out base).
Proof.
  intros Hn Hmk Hshort r. subst r.
  rewrite save_stems_unfold, Hn. unfold bind, mkdir.
  destruct (os_mkdir E (fs st) out) as [fs' [[] | e]]; [| discriminate].
  set (st0 := with_fs E (log st (Mkdir out)) fs').
  assert (H0 : W st0 = W st).
  { unfold W, st0. cbn. rewrite write_attempts_snoc. apply app_nil_r. }
  rewrite <- H0.
  destruct stems as [| a [| b [| c [| d more]]]]; cbn [length] in *; try lia.
  - apply (for_each_save_short E [] sr out base
             [] (0, "drums") [(1, "bass"); (2, "other"); (3, "vocals")]);
      [constructor | cbn; lia].
  - apply (for_each_save_short E [a] sr out base
             [(0, "drums")] (1, "bass") [(2, "other"); (3, "vocals")]);
      [repeat constructor | cbn; lia].
  - apply (for_each_save_short E [a; b] sr out base
             [(0, "drums"); (1, "bass")] (2, "other") [(3, "vocals")]);
      [repeat constructor | cbn; lia].
  - apply (for_each_save_short E [a; b; c] sr out base
             [(0, "drums"); (1, "bass"); (2, "other")] (3, "vocals") []);
      [repeat constructor; cbn; lia | cbn; lia].
Qed.

(** X19.  A model that returns fewer than four sources makes [split_audio]
    return [False] with an index error reported, but not before the stems
    that are there were handed to [sf.write]: a failed run can leave some
    of the stem files behind. *)
Theorem split_audio_too_few_sources (E : Env) (self : Self) (input_path : Path)
    (output_dir : Path) (st : State E) (m : Model E)
    (w w' : list (list (sample E))) (sr : Z)
    (stems : list (list (list (sample E))))
    (more : list (list (list (list (sample E))))) :
  constructed self ->
  is_supported_format self input_path = true ->
  os_exists E (fs st) input_path = Ok true ->
  self_model st = Some m ->
  torchaudio_load E (fs st) input_path = Ok (w, sr) ->
  shape0 w = 2 ->
  sr <> 0%Z ->
  tensor_to E (float E w) (device self) = Ok w' ->
  apply_model E m [w'] (device self) = Ok (stems :: more) ->
  length stems < 4 ->
  is_ok (snd (os_mkdir E (fs st) output_dir)) = true ->
  let r := split_audio E self input_path (Some output_dir) st in
  fst r = Ok false
  /\ W (snd r)
     = W st ++ firstn (length stems) (stem_files output_dir (stem input_path))
  /\ exists before,
       trace (snd r)
       = before ++ [Print (MsgProcessError (name input_path) IndexError);
                    LogError input_path IndexError].
Proof.
  intros [_ Hn] Hfmt Hex Hm Hload Hch Hsr Hto Happ Hshort Hmk r. subst r.
  rewrite (split_audio_to_save E self input_path (Some output_dir) st m w w' sr
             stems more Hfmt Hex Hm Hload Hch Hsr Hto Happ).
  match goal with
  | |- context [save_stems E self stems sr output_dir (stem input_path) ?s] =>
      pose proof (save_stems_short E self stems sr output_dir (stem input_path) s
                    Hn Hmk Hshort) as Hsave;
      assert (Hs : W s = W st)
        by (unfold W, write_attempts; cbn [trace]; rewrite flat_map_app;
            cbn; apply app_nil_r)
  end.
  cbv zeta in Hsave. destruct Hsave as [Hres Hw]. rewrite Hs in Hw.
  destruct (save_stems E self stems sr output_dir (stem input_path) _)
    as [res stb]. cbn [fst snd] in Hres, Hw. subst res.
  cbn [fst snd]. split; [reflexivity |]. split.
  - unfold W in *. cbn. rewrite !write_attempts_snoc. cbn.
    rewrite !app_nil_r. exact Hw.
  - exists (trace stb). cbn. rewrite <- app_assoc. reflexivity.
Qed.

Lemma split_audio_too_few_sources_witness :
  let p := mkPath "" ["music"; "a.mp3"] in
  let out := mkPath "" ["out"] in
  let st := Faulty.loaded Faulty.env_two_sources tt [] in
  let r := split_audio Faulty.env_two_sources Demo.self p (Some out) st in
  fst r = Ok false
  /\ W (snd r) = W st ++ firstn 2 (stem_files out (stem p))
  /\ exists before,
       trace (snd r)
       = before ++ [Print (MsgProcessError (name p) IndexError);
                    LogError p IndexError].
Proof.
  apply (split_audio_too_few_sources Faulty.env_two_sources Demo.self
           (mkPath "" ["music"; "a.mp3"]) (mkPath "" ["out"])
           (Faulty.loaded Faulty.env_two_sources tt []) tt Demo.stereo Demo.stereo
           44100%Z [Demo.stereo; Demo.stereo] []).
  - split; [apply Permutation_refl | reflexivity].
  - reflexivity.
  - reflexivity.
  - reflexivity.
  - reflexivity.
  - reflexivity.
  - discriminate.
  - reflexivity.
  - reflexivity.
  - simpl. lia.
  - reflexivity.
Defined.

(** ** The format gate, by the name of the file *)

Section GateByName.

Lemma char_lower_dot (c : ascii) :
  Ascii.eqb (char_lower c) "." = Ascii.eqb c ".".
Proof. destruct c as [[] [] [] [] [] [] [] []]; reflexivity. Qed.

Lemma rfind_lower (s : string) : rfind (lower s) "." = rfind s ".".
Proof.
  induction s as [| c s IH]; [reflexivity |].
  cbn [lower rfind]. cbv zeta. rewrite IH, char_lower_dot. reflexivity.
Qed.

Lemma take_drop (n : nat) (s : string) : (take n s ++ drop n s)%string = s.
Proof.
  revert s. induction n as [| n IH]; intros [| c s]; simpl; try reflexivity.
  rewrite IH. reflexivity.
Qed.

(** An extension that lower-cases to a supported one is a dot and a
    dot-free, non-empty rest. *)
Lemma extension_shape (ext : string) :
  In (lower ext) SUPPORTED_FORMATS ->
  exists rest, ext = String "." rest /\ rfind rest "." = (-1)%Z /\ rest <> "".
Proof.
  intros Hin.
  destruct (patterns_shape (lower ext) (in_or_app _ _ _ (or_introl Hin)))
    as (r & Hr & Hdot & Hne).
  destruct ext as [| c rest]; [discriminate |].
  cbn [lower] in Hr. injection Hr as Hc Hrest.
  exists rest. split; [| split].
  - f_equal. apply Ascii.eqb_eq. rewrite <- char_lower_dot, Hc. reflexivity.
  - rewrite <- rfind_lower, Hrest. exact Hdot.
  - intros ->. apply Hne. symmetry. exact Hrest.
Qed.

End GateByName.

(** X20.  The format gate looks at the name of the file only, and there at
    what follows the last dot: a path is accepted exactly when its name is
    a non-empty base followed by an extension that is supported up to case.
    So [a.tar.MP3] is accepted, and a name that is an extension and nothing
    else, as [.mp3], is not. *)
Theorem is_supported_format_by_name (self : Self) (file_path : Path) :
  constructed self ->
  (is_supported_format self file_path = true <->
   exists base ext,
     name file_path = (base ++ ext)%string
     /\ base <> ""
     /\ In (lower ext) SUPPORTED_FORMATS).
Proof.
  intros [Hperm _]. unfold is_supported_format, suffix.
  rewrite str_in_In. set (nm := name file_path). split.
  - intros H.
    assert (Hin : In (lower (suffix_of_name nm)) SUPPORTED_FORMATS)
      by (eapply Permutation_in; [apply Permutation_sym; exact Hperm | exact H]).
    clear H. revert Hin. unfold suffix_of_name.
    destruct ((0 <? rfind nm ".") && (rfind nm "." <? len nm - 1))%Z eqn:Hc.
    + intros Hin. apply andb_true_iff in Hc as [H1 H2].
      apply Z.ltb_lt in H1. apply Z.ltb_lt in H2. unfold len in H2.
      exists (slice_to nm (rfind nm ".")), (slice_from nm (rfind nm ".")).
      split; [unfold slice_to, slice_from; symmetry; apply take_drop |].
      split; [| exact Hin].
      intros Hs. apply (f_equal String.length) in Hs. unfold slice_to in Hs.
      rewrite take_length in Hs by lia. simpl in Hs. lia.
    + intros Hin. exfalso. simpl in Hin.
      repeat (destruct Hin as [Hin | Hin]; [discriminate |]). exact Hin.
  - intros (base & ext & Hnm & Hbase & Hin). rewrite Hnm.
    destruct (extension_shape ext Hin) as (rest & -> & Hdot & Hne).
    destruct (suffix_or_bare (base ++ String "." rest) rest Hdot Hne) as [Hs | Hs];
      [exists base; reflexivity | |].
    + rewrite Hs. eapply Permutation_in; [exact Hperm | exact Hin].
    + exfalso. apply (f_equal String.length) in Hs.
      rewrite length_app_string in Hs.
      destruct base; [contradiction | simpl in Hs; lia].
Qed.

Lemma is_supported_format_by_name_witness :
  is_supported_format Demo.self (mkPath "" ["music"; "a.tar.MP3"]) = true <->
  exists base ext,
    name (mkPath "" ["music"; "a.tar.MP3"]) = (base ++ ext)%string
    /\ base <> ""
    /\ In (lower ext) SUPPORTED_FORMATS.
Proof.
  apply (is_supported_format_by_name Demo.self (mkPath "" ["music"; "a.tar.MP3"])).
  split; [apply Permutation_refl | reflexivity].
Defined.

(** ** The command line *)





(** ** Where the stems go *)

Section NameParts.

Lemma stem_suffix_name (nm : string) :
  (stem_of_name nm ++ suffix_of_name nm)%string = nm.
Proof.
  unfold stem_of_name, suffix_of_name.
  destruct ((0 <? rfind nm ".") && (rfind nm "." <? len nm - 1))%Z.
  - unfold slice_to, slice_from. apply take_drop.
  - induction nm as [| c nm IH]; [reflexivity | simpl; rewrite IH; reflexivity].
Qed.

(** From the last occurrence of a character on, a string starts with it. *)
Lemma drop_rfind (s : string) (c : ascii) :
  (0 <= rfind s c)%Z ->
  exists r, drop (Z.to_nat (rfind s c)) s = String c r.
Proof.
  induction s as [| a s IH]; cbn [rfind]; cbv zeta; [lia |].
  destruct (0 <=? rfind s c)%Z eqn:Hle.
  - intros _. apply Z.leb_le in Hle. destruct (IH Hle) as (r & Hr).
    exists r. replace (Z.to_nat (rfind s c + 1)) with (S (Z.to_nat (rfind s c))) by lia.
    exact Hr.
  - destruct (Ascii.eqb a c) eqn:Hac; [| lia].
    intros _. apply Ascii.eqb_eq in Hac. subst a. exists s. reflexivity.
Qed.

Lemma suffix_starts_with_dot (nm : string) :
  suffix_of_name nm = "" \/ exists r, suffix_of_name nm = String "." r.
Proof.
  unfold suffix_of_name.
  destruct ((0 <? rfind nm ".") && (rfind nm "." <? len nm - 1))%Z eqn:Hc;
    [right | left; reflexivity].
  apply andb_true_iff in Hc as [H1 _]. apply Z.ltb_lt in H1.
  unfold slice_from. apply drop_rfind. lia.
Qed.

(** No stem file of a path is the path. *)
Lemma stem_files_not_input (p out : Path) : ~ In p (stem_files out (stem p)).
Proof.
  unfold stem_files. intros H. apply in_map_iff in H as (item & Hp & _).
  apply (f_equal name) in Hp. unfold stem_file in Hp.
  rewrite name_joinpath in Hp by apply stem_file_name.
  unfold stem in Hp.
  assert (Hq : (stem_of_name (name p) ++ "_" ++ snd item ++ ".wav")%string
               = (stem_of_name (name p) ++ suffix_of_name (name p))%string)
    by (rewrite stem_suffix_name; exact Hp).
  apply append_cancel_l in Hq.
  destruct (suffix_starts_with_dot (name p)) as [Hs | (r & Hs)];
    rewrite Hs in Hq; discriminate.
Qed.

End NameParts.

(** X22.  [split_audio] never writes to its input: whatever the output
    directory, given or defaulted, none of the paths it hands to [sf.write]
    is the input path, since every stem file is named by the stem of the
    input, an underscore and more, and the input by its stem and a suffix
    that is empty or starts with a dot. *)
Theorem split_audio_spares_input (E : Env) (self : Self) (input_path : Path)
    (output_dir : option Path) (st : State E) :
  constructed self ->
  let r := split_audio E self input_path output_dir st in
  exists new,
    W (snd r) = W st ++ new
    /\ ~ In input_path new.
Proof.
  intros [_ Hn] r. subst r.
  set (out := match output_dir with
              | None => joinpath (parent input_path) (stem input_path ++ "_stems")
              | Some d => d
              end).
  assert (Heq : split_audio E self input_path output_dir st
                = split_audio E self input_path (Some out) st)
    by (destruct output_dir; reflexivity).
  rewrite Heq.
  destruct (split_audio_writes E self input_path out st Hn) as [(k & Hk) _].
  exists (firstn k (stem_files out (stem input_path))). split; [exact Hk |].
  intros Hin. apply (stem_files_not_input input_path out).
  rewrite <- (firstn_skipn k (stem_files out (stem input_path))).
  apply in_or_app. left. exact Hin.
Qed.

Lemma split_audio_spares_input_witness :
  let p := mkPath "" ["music"; "a.mp3"] in
  let r := split_audio Demo.env Demo.self p (Some Demo.music) Demo.start in
  exists new,
    W (snd r) = W Demo.start ++ new
    /\ ~ In p new.
Proof.
  apply (split_audio_spares_input Demo.env Demo.self (mkPath "" ["music"; "a.mp3"])
           (Some Demo.music) Demo.start).
  split; [apply Permutation_refl | reflexivity].
Defined.

(** X23.  Where a batch writes.  Every path a batch hands to [sf.write] is
    one of the four stem files of an enumerated file [f], in the directory
    [output_dir / stem(f)].  For a stem other than a dot or two dots this
    is the subdirectory of the output directory named by the stem, and the
    file lies two levels below the output directory.  For the stem [.] it
    is the output directory itself, and for the stem [..] the directory
    [output_dir/..]: a batch is not confined to its output directory. *)
Theorem batch_split_write_targets (E : Env) (self : Self)
    (input_dir : Path) (output_dir : option Path) (st st0 : State E)
    (files : list Path) :
  constructed self ->
  os_exists E (fs st) input_dir = Ok true ->
  find_audio_files E input_dir (supported_formats self) []
    (log st (PathExists input_dir)) = (Ok files, st0) ->
  let out := match output_dir with
             | None => joinpath input_dir "stems"
             | Some d => d
             end in
  exists new,
    W (snd (batch_split E self input_dir output_dir st)) = W st ++ new
    /\ forall g, In g new ->
         exists f, In f files
           /\ In g (stem_files (joinpath out (stem f)) (stem f))
           /\ parent g = joinpath out (stem f)
           /\ (stem f <> "." -> stem f <> ".." ->
               parts g = parts out ++ [stem f; name g])
           /\ (stem f = "." -> parent g = out)
           /\ (stem f = ".." ->
               parent g = mkPath (anchor out) (parts out ++ [".."])).
Proof.
  intros Hc Hex Hfind out.
  destruct (batch_split_writes E self input_dir output_dir st st0 files
              (proj2 Hc) Hex Hfind) as [(new & Hw & Hin) _].
  fold out in Hin.
  exists new. split; [exact Hw |]. intros g Hg.
  destruct (Hin g Hg) as (f & Hf & Hgf). exists f.
  split; [exact Hf |]. split; [exact Hgf |].
  pose proof (stem_file_parent _ _ _ Hgf) as Hpar.
  split; [exact Hpar |].
  destruct (found_file_shape E self input_dir _ st0 files f Hc Hfind Hf)
    as (nm & _ & _ & _ & _ & _ & _ & Hst).
  split; [| split].
  - intros Hdot _. unfold stem_files in Hgf.
    apply in_map_iff in Hgf as (item & <- & _). unfold stem_file.
    destruct (stem_file_name (stem f) (snd item)) as [H1 H2].
    rewrite (name_joinpath _ _ H1 H2), (joinpath_append _ _ H1 H2).
    rewrite (joinpath_append out (stem f) Hst Hdot). cbn [parts anchor].
    rewrite <- app_assoc. reflexivity.
  - intros Hd. rewrite Hpar, Hd. reflexivity.
  - intros Hdd. rewrite Hpar, Hdd. reflexivity.
Qed.

Lemma batch_split_write_targets_witness :
  let E := Faulty.env_album in
  let st := Faulty.fresh E [] in
  let out := mkPath "" ["out"] in
  let up := mkPath "" ["out"; ".."] in
  let files := [joinpath Faulty.dots "..mp3"; joinpath Faulty.dots "...mp3"] in
  let written :=
    [joinpath out "._drums.wav"; joinpath out "._bass.wav";
     joinpath out "._other.wav"; joinpath out "._vocals.wav";
     joinpath up ".._drums.wav"; joinpath up ".._bass.wav";
     joinpath up ".._other.wav"; joinpath up ".._vocals.wav"] in
  W (snd (batch_split E Demo.self Faulty.dots (Some out) st)) = written
  /\ forall g, In g written ->
       exists f, In f files
         /\ In g (stem_files (joinpath out (stem f)) (stem f))
         /\ parent g = joinpath out (stem f)
         /\ (stem f <> "." -> stem f <> ".." ->
             parts g = parts out ++ [stem f; name g])
         /\ (stem f = "." -> parent g = out)
         /\ (stem f = ".." ->
             parent g = mkPath (anchor out) (parts out ++ [".."])).
Proof.
  destruct (batch_split_write_targets Faulty.env_album Demo.self Faulty.dots
              (Some (mkPath "" ["out"])) (Faulty.fresh Faulty.env_album [])
              (snd (find_audio_files Faulty.env_album Faulty.dots
                      (supported_formats Demo.self) []
                      (log (Faulty.fresh Faulty.env_album [])
                         (PathExists Faulty.dots))))
              [joinpath Faulty.dots "..mp3"; joinpath Faulty.dots "...mp3"])
    as (new & Hw & Hin).
  - split; [apply Permutation_refl | reflexivity].
  - reflexivity.
  - vm_compute. reflexivity.
  - assert (Hnew : new
                   = [joinpath (mkPath "" ["out"]) "._drums.wav";
                      joinpath (mkPath "" ["out"]) "._bass.wav";
                      joinpath (mkPath "" ["out"]) "._other.wav";
                      joinpath (mkPath "" ["out"]) "._vocals.wav";
                      joinpath (mkPath "" ["out"; ".."]) ".._drums.wav";
                      joinpath (mkPath "" ["out"; ".."]) ".._bass.wav";
                      joinpath (mkPath "" ["out"; ".."]) ".._other.wav";
                      joinpath (mkPath "" ["out"; ".."]) ".._vocals.wav"])
      by (vm_compute in Hw; symmetry; exact Hw).
    rewrite Hnew in Hw, Hin. split; [exact Hw | exact Hin].
Defined.
